(** * NetaBako: the trend scraping and merge pipeline

    A shallow embedding of the Go functions [get], [fetchGoogleTrends],
    [fetchYahooRealtime] and [mergeAndRank], and the properties the
    specification states about them.

    Go strings are byte strings: they are modelled by [string] (lists of
    8-bit characters).  Go's [int] is modelled by [Z]; ranks are only ever
    compared or built as [i + 1] from a slice index, so they never wrap;
    the accumulated score is the one place an addition is repeated, and its
    64-bit wrap-around is written out.

    Library functions whose code is not part of the repository
    ([strings.TrimSpace], [strings.ToLower], the regular expression search,
    the XML decoder, the HTML parser and the HTTP client) are variables of
    the sections below: every theorem holds whatever they compute.  The
    instances given after the adapters (ASCII trimming and folding, small
    feeds and pages) serve the worked examples only. *)

From Stdlib Require Import ZArith Ascii Sorting.Sorted.
From Stdlib Require String.
From stdpp Require Import base gmap strings list sorting.

Local Open Scope Z_scope.

(** ** Byte strings *)

(** [strings.Contains s substr]: [substr] occurs in [s]. *)
Fixpoint Contains (s substr : string) : bool :=
  String.prefix substr s ||
  match s with
  | EmptyString => false
  | String _ s' => Contains s' substr
  end.

(** [strings.Join elems sep]. *)
Definition Join (elems : list string) (sep : string) : string :=
  String.concat sep elems.

(** Go's [<] on strings is the lexicographic order of the bytes, which is
    what [String.ltb] computes. *)
Definition string_lt (s1 s2 : string) : bool := String.ltb s1 s2.

(** ** The shared record *)

Record Topic := mkTopic {
  Source : string;
  Title : string;
  Note : string;
  Rank : Z
}.

(** ** The comparator handed to [sort.Slice] by [mergeAndRank] *)

Definition less (a b : Topic) : bool :=
  if (Rank a =? 0) && (0 <? Rank b) then false
  else if (Rank b =? 0) && (0 <? Rank a) then true
  else if negb (Rank a =? Rank b) then Rank a <? Rank b
  else string_lt (Title a) (Title b).

(** ** [sort.Slice]

    The library promises a permutation of the slice in which no element is
    [less] than its predecessor (what [sort.SliceIsSorted] tests), and
    nothing about the order of elements neither of which is [less] than the
    other.  [sort_Slice_spec] is that contract; [sort_Slice] is the
    insertion sort the library runs on short slices: each element is
    swapped leftwards while it is [less] than its left neighbour.  The
    sorted prefix is kept reversed, its last element first. *)

Section Sort.
Context {A : Type} (lessFn : A → A → bool).

Definition not_before (a b : A) : Prop := lessFn b a = false.

Definition sort_Slice_spec (data sorted : list A) : Prop :=
  sorted ≡ₚ data ∧ Sorted not_before sorted.

Fixpoint sift (x : A) (rprefix : list A) : list A :=
  match rprefix with
  | [] => [x]
  | y :: r => if lessFn x y then y :: sift x r else x :: y :: r
  end.

Definition sort_Slice (data : list A) : list A :=
  reverse (foldl (λ rprefix x, sift x rprefix) [] data).
End Sort.

(** ** The merger *)

(** The accumulator [Acc] local to [mergeAndRank]; its fields [Title],
    [Note], [Score] and [Best] carry the prefix [Acc_]. *)
Record Acc := mkAcc {
  Acc_Title : string;
  Acc_Note : list string;
  Acc_Score : Z;
  Acc_Best : Topic
}.

(** Go's [int] addition, 64 bits wide. *)
Definition int_add (x y : Z) : Z := (x + y + 2 ^ 63) mod 2 ^ 64 - 2 ^ 63.

Section Merge.
Context (TrimSpace ToLower : string → string).

(** The merge key computed at the top of [add]. *)
Definition mergeKey (title : string) : string := ToLower (TrimSpace title).

(** The closure [add], with the two score weights taken as arguments;
    the program's closure is [add], with the weights 3 and 2.  The map
    holds pointers to accumulators that are updated in place, one field
    after the other: each update is an [alter] at the key. *)
Definition addWith (wYahoo wOther : Z)
    (acc : gmap string Acc) (t : Topic) : gmap string Acc :=
  let key := mergeKey (Title t) in
  if decide (key = "") then acc
  else
    let acc :=
      match acc !! key with
      | Some _ => acc
      | None => <[key := mkAcc (Title t) [] 0 t]> acc
      end in
    let acc :=
      alter (λ v, mkAcc (Acc_Title v) (Acc_Note v)
                    (int_add (Acc_Score v)
                       (if decide (Source t = "yahoo") then wYahoo else wOther))
                    (Acc_Best v)) key acc in
    let acc :=
      if decide (Note t = "") then acc
      else alter (λ v, mkAcc (Acc_Title v) (Acc_Note v ++ [Note t])
                         (Acc_Score v) (Acc_Best v)) key acc in
    alter (λ v,
             if (0 <? Rank t) &&
                ((Rank (Acc_Best v) =? 0) || (Rank t <? Rank (Acc_Best v)))
             then mkAcc (Acc_Title v) (Acc_Note v) (Acc_Score v) t
             else v) key acc.

Definition add : gmap string Acc → Topic → gmap string Acc := addWith 3 2.

(** The two loops that fold the lists into the map, the first list
    first. *)
Definition accumulateWith (wYahoo wOther : Z) (yahoo google : list Topic)
    : gmap string Acc :=
  foldl (addWith wYahoo wOther) (foldl (addWith wYahoo wOther) ∅ yahoo) google.

(** The body of the loop that emits one merged topic per accumulator. *)
Definition emit (v : Acc) : Topic :=
  mkTopic "mix" (Acc_Title v) (Join (Acc_Note v) " / ") (Rank (Acc_Best v)).

(** The final [merged[:topN]]. *)
Definition truncate (topN : Z) (merged : list Topic) : list Topic :=
  if (0 <? topN) && (topN <? Z.of_nat (length merged))
  then take (Z.to_nat topN) merged
  else merged.

(** [mergeAndRank], run with the map ranged over in the order
    [map_to_list] lists it and with the insertion sort. *)
Definition mergeAndRankWith (wYahoo wOther : Z)
    (yahoo google : list Topic) (topN : Z) : list Topic :=
  let acc := accumulateWith wYahoo wOther yahoo google in
  let merged := emit <$> (map_to_list acc).*2 in
  truncate topN (sort_Slice less merged).

Definition mergeAndRank : list Topic → list Topic → Z → list Topic :=
  mergeAndRankWith 3 2.

(** What a run of [mergeAndRank] may return: Go ranges over a map in an
    order it does not specify, and [sort.Slice] is any sort that meets
    its contract. *)
Definition mergeAndRank_run (yahoo google : list Topic) (topN : Z)
    (out : list Topic) : Prop :=
  ∃ (visited : list Acc) (sorted : list Topic),
    visited ≡ₚ (map_to_list (accumulateWith 3 2 yahoo google)).*2 ∧
    sort_Slice_spec less (emit <$> visited) sorted ∧
    out = truncate topN sorted.
End Merge.

(** ** The fetcher *)

Record Request := mkRequest {
  Method : string;
  URL : string;
  Header : list (string * string)
}.

(** What the adapters read of an [http.Response]: the status, the
    [Content-Type] header ([resp.Header.Get], empty when the header is
    absent) and the bytes of the body. *)
Record Response := mkResponse {
  StatusCode : Z;
  Status : string;
  ContentType : string;
  Body : string
}.

(** The response or the error returned by [httpClient.Do]. *)
Inductive DoResult :=
| DoError (err : string)
| DoResponse (resp : Response).

(** The errors the adapters build with [fmt.Errorf], one constructor per
    format string, holding the values formatted into it. *)
Inductive error :=
| google_request (err : string)
| google_non_XML (ct snippet : string)
| google_decode (err : string)
| google_zero_items (url : string)
| yahoo_request (err : string)
| yahoo_status (status body : string)
| yahoo_parse (err : string)
| yahoo_no_topics.

(** [io.ReadAll(io.LimitReader(body, 512))]. *)
Definition snippet512 (body : string) : string := String.substring 0 512 body.

Section Fetcher.
Context (httpClient_Do : Request → DoResult).

(** [get]: the request is built by [http.NewRequestWithContext], whose
    error the program drops; the model covers the URLs it accepts, which
    the two fixed hosts with the region code of the orchestration are. *)
Definition get (url : string) : DoResult :=
  httpClient_Do
    (mkRequest "GET" url
       [("User-Agent",
         "Mozilla/5.0 (Windows NT 10.0; Win64; x64) AppleWebKit/537.36 (KHTML, like Gecko) Chrome/125 Safari/537.36");
        ("Accept",
         "application/rss+xml, application/xml;q=0.9, text/xml;q=0.8, */*;q=0.5");
        ("Accept-Language", "ja,en;q=0.8")]).
End Fetcher.

(** ** Source adapter A: the feed *)

Record Item := mkItem {
  Item_Title : string;
  Item_Description : string
}.

Record Channel := mkChannel { Channel_Items : list Item }.

Record RSS := mkRSS { RSS_Channel : Channel }.

(** The two candidate URLs, [fmt.Sprintf] with [%s]. *)
Definition primaryURL (geo : string) : string :=
  "https://trends.google.com/trends/trendingsearches/daily/rss?hl=ja&geo=" +:+ geo.

Definition secondaryURL (geo : string) : string :=
  "https://trends.google.com/trending/rss?geo=" +:+ geo.

Definition urls (geo : string) : list string :=
  [primaryURL geo; secondaryURL geo].

Section Google.
Context (TrimSpace : string → string).
Context (reTraffic_FindString : string → string).
Context (xml_Decode : string → string + RSS).
Context (httpClient_Do : Request → DoResult).

(** The loop over [rss.Channel.Items]: [i] is the index of the item at
    the head of [items], [topics] the slice built so far. *)
Fixpoint collectItems (max : Z) (i : nat) (items : list Item)
    (topics : list Topic) : list Topic :=
  match items with
  | [] => topics
  | it :: rest =>
      let title := TrimSpace (Item_Title it) in
      if decide (title = "") then collectItems max (S i) rest topics
      else
        let m := reTraffic_FindString (Item_Description it) in
        let note := if decide (m = "") then "" else m in
        let topics := topics ++ [mkTopic "google" title note (Z.of_nat i + 1)] in
        if (0 <? max) && (max <=? Z.of_nat (length topics)) then topics
        else collectItems max (S i) rest topics
  end.

(** The result of a call: the returned slice (a nil slice is the empty
    list), the returned error, and the URLs requested, in order. *)
Record Fetched := mkFetched {
  topics_of : list Topic;
  err_of : option error;
  requested : list string
}.

(** The loop over the candidate URLs, with [lastErr] and the requests
    made so far. *)
Fixpoint tryURLs (max : Z) (candidates : list string)
    (lastErr : option error) (log : list string) : Fetched :=
  match candidates with
  | [] => mkFetched [] lastErr log
  | url :: rest =>
      let log := log ++ [url] in
      match get httpClient_Do url with
      | DoError err => tryURLs max rest (Some (google_request err)) log
      | DoResponse resp =>
          let ct := ContentType resp in
          if negb (Contains ct "xml")
          then tryURLs max rest
                 (Some (google_non_XML ct (snippet512 (Body resp)))) log
          else
            match xml_Decode (Body resp) with
            | inl err => tryURLs max rest (Some (google_decode err)) log
            | inr rss =>
                let topics :=
                  collectItems max 0 (Channel_Items (RSS_Channel rss)) [] in
                if 0 <? Z.of_nat (length topics)
                then mkFetched topics None log
                else tryURLs max rest (Some (google_zero_items url)) log
            end
      end
  end.

Definition fetchGoogleTrends (geo : string) (max : Z) : Fetched :=
  tryURLs max (urls geo) None [].
End Google.

(** ** Source adapter B: the listing page *)

(** An element matched by the selector: the value of its [href]
    attribute ([a.Attr]; the program drops the flag that tells an absent
    attribute from an empty one) and its text ([a.Text]). *)
Record Anchor := mkAnchor {
  href : string;
  text : string
}.

Section Yahoo.
Context (TrimSpace ToLower : string → string).
Context (Document : Type).
Context (NewDocumentFromReader : string → string + Document).
Context (Find : Document → string → list Anchor).
Context (httpClient_Do : Request → DoResult).

(** The closure passed to [Each]; it appends to the captured [topics]. *)
Definition visit (i : nat) (a : Anchor) (topics : list Topic) : list Topic :=
  let txt := TrimSpace (text a) in
  if bool_decide (txt = "") || negb (Contains (href a) "/realtime/search")
  then topics
  else topics ++ [mkTopic "yahoo" txt "" (Z.of_nat i + 1)].

(** [Selection.Each]: the closure is called on every matched element
    with its index in the selection. *)
Fixpoint Each {St : Type} (i : nat) (selection : list Anchor)
    (f : nat → Anchor → St → St) (s : St) : St :=
  match selection with
  | [] => s
  | a :: rest => Each (S i) rest f (f i a s)
  end.

(** The second loop, with the map [seen] and the slice [out]; a key
    missing from [seen] reads as false. *)
Fixpoint dedupe (max : Z) (topics : list Topic)
    (seen : gmap string bool) (out : list Topic) : list Topic :=
  match topics with
  | [] => out
  | t :: rest =>
      let key := ToLower (TrimSpace (Title t)) in
      if bool_decide (key = "") || default false (seen !! key)
      then dedupe max rest seen out
      else
        let seen := <[key := true]> seen in
        let out := out ++ [t] in
        if (0 <? max) && (max <=? Z.of_nat (length out)) then out
        else dedupe max rest seen out
  end.

Definition fetchYahooRealtime (max : Z) : list Topic * option error :=
  match get httpClient_Do "https://search.yahoo.co.jp/realtime/trend" with
  | DoError err => ([], Some (yahoo_request err))
  | DoResponse resp =>
      if negb (StatusCode resp =? 200)
      then ([], Some (yahoo_status (Status resp) (snippet512 (Body resp))))
      else
        match NewDocumentFromReader (Body resp) with
        | inl err => ([], Some (yahoo_parse err))
        | inr doc =>
            let topics := Each 0 (Find doc "ol li a, ul li a") visit [] in
            let out := dedupe max topics ∅ [] in
            if Z.of_nat (length out) =? 0
            then ([], Some yahoo_no_topics)
            else (out, None)
        end
  end.
End Yahoo.

(** ** Instances for the worked examples

    On strings of ASCII bytes [strings.TrimSpace] removes the leading and
    trailing bytes among tab, line feed, vertical tab, form feed, carriage
    return and space, and [strings.ToLower] maps [A]..[Z] to [a]..[z].
    The examples below use ASCII titles only. *)

Definition isSpaceASCII (c : ascii) : bool :=
  let n := N_of_ascii c in ((9 <=? n) && (n <=? 13) || (n =? 32))%N.

Fixpoint trimLeftASCII (s : string) : string :=
  match s with
  | EmptyString => EmptyString
  | String c s' => if isSpaceASCII c then trimLeftASCII s' else s
  end.

Fixpoint trimRightASCII (s : string) : string :=
  match s with
  | EmptyString => EmptyString
  | String c s' =>
      match trimRightASCII s' with
      | EmptyString => if isSpaceASCII c then EmptyString else String c EmptyString
      | r => String c r
      end
  end.

Definition TrimSpaceASCII (s : string) : string :=
  trimRightASCII (trimLeftASCII s).

Definition toLowerByte (c : ascii) : ascii :=
  let n := N_of_ascii c in
  if ((65 <=? n) && (n <=? 90))%N then ascii_of_N (n + 32) else c.

Fixpoint ToLowerASCII (s : string) : string :=
  match s with
  | EmptyString => EmptyString
  | String c s' => String (toLowerByte c) (ToLowerASCII s')
  end.

(** A network on which every request fails, and a search that finds
    nothing. *)
Definition offline (req : Request) : DoResult := DoError "offline".

Definition noMatch (s : string) : string := "".

(** A feed of five items behind the secondary URL, the primary URL
    answering with an HTML page. *)
Definition fiveItems : RSS :=
  mkRSS (mkChannel [mkItem "alpha" ""; mkItem "beta" ""; mkItem "gamma" "";
                    mkItem "delta" ""; mkItem "epsilon" ""]).

(** A feed whose first item has a blank title. *)
Definition blankFirst : RSS :=
  mkRSS (mkChannel [mkItem "  " ""; mkItem "alpha" ""; mkItem "beta" "";
                    mkItem "gamma" ""]).

Definition demoDecode (body : string) : string + RSS :=
  if decide (body = "five") then inr fiveItems
  else if decide (body = "blank first") then inr blankFirst
  else inl "unexpected EOF".

Definition fallbackNet (req : Request) : DoResult :=
  if decide (URL req = secondaryURL "JP")
  then DoResponse (mkResponse 200 "200 OK" "application/rss+xml" "five")
  else DoResponse (mkResponse 200 "200 OK" "text/html" "<html>").

Definition blankFirstNet (req : Request) : DoResult :=
  DoResponse (mkResponse 200 "200 OK" "text/xml" "blank first").

(** Two listing pages, given by the anchors the selector matches in
    them: one with a navigation link before and between the trend links,
    one with ten trend links of which two repeat an earlier title. *)
Definition navPage : list Anchor :=
  [mkAnchor "/help" "Help";
   mkAnchor "/realtime/search?p=alpha" " Alpha ";
   mkAnchor "" "Login";
   mkAnchor "/realtime/search?p=beta" "Beta"].

Definition tenLinks : list Anchor :=
  [mkAnchor "/realtime/search?p=1" "one";
   mkAnchor "/realtime/search?p=2" "two";
   mkAnchor "/realtime/search?p=3" "One";
   mkAnchor "/realtime/search?p=4" "three";
   mkAnchor "/realtime/search?p=5" "four";
   mkAnchor "/realtime/search?p=6" "two ";
   mkAnchor "/realtime/search?p=7" "five";
   mkAnchor "/realtime/search?p=8" "six";
   mkAnchor "/realtime/search?p=9" "seven";
   mkAnchor "/realtime/search?p=10" "eight"].

Definition demoParse (body : string) : string + list Anchor :=
  if decide (body = "nav page") then inr navPage
  else if decide (body = "ten links") then inr tenLinks
  else inl "unexpected EOF".

Definition demoFind (doc : list Anchor) (selector : string) : list Anchor :=
  if decide (selector = "ol li a, ul li a") then doc else [].

Definition pageNet (body : string) (req : Request) : DoResult :=
  DoResponse (mkResponse 200 "200 OK" "text/html" body).

(** ** Vocabulary of the statements *)

Section MergeVocabulary.
Context (TrimSpace ToLower : string → string).

(** [t] is a topic of [inputs] that carries the merge key [k]. *)
Definition contributes (k : string) (inputs : list Topic) (t : Topic) : Prop :=
  t ∈ inputs ∧ mergeKey TrimSpace ToLower (Title t) = k.

(** [r] is the least positive rank among the topics of [inputs] with key
    [k], or the sentinel 0 when none of them has a positive rank. *)
Definition min_positive_rank (k : string) (inputs : list Topic) (r : Z) : Prop :=
  (0 < r ∧ (∃ t, contributes k inputs t ∧ Rank t = r) ∧
     ∀ t, contributes k inputs t → 0 < Rank t → r ≤ Rank t) ∨
  (r = 0 ∧ ∀ t, contributes k inputs t → ¬ 0 < Rank t).

(** How many entries of [out] carry the merge key [k]. *)
Definition occurrences (k : string) (out : list Topic) : nat :=
  length (filter (λ o, mergeKey TrimSpace ToLower (Title o) = k) out).

(** The set of merge keys of a list of topics. *)
Definition keySet (l : list Topic) : gset string :=
  list_to_set ((λ o, mergeKey TrimSpace ToLower (Title o)) <$> l).

(** The value [add] leaves at the key of [t], from the value [v] found
    there (or created there): the three in-place updates in a row. *)
Definition updated (wYahoo wOther : Z) (v : Acc) (t : Topic) : Acc :=
  let v := mkAcc (Acc_Title v) (Acc_Note v)
             (int_add (Acc_Score v)
                (if decide (Source t = "yahoo") then wYahoo else wOther))
             (Acc_Best v) in
  let v := if decide (Note t = "") then v
           else mkAcc (Acc_Title v) (Acc_Note v ++ [Note t])
                  (Acc_Score v) (Acc_Best v) in
  if (0 <? Rank t) &&
     ((Rank (Acc_Best v) =? 0) || (Rank t <? Rank (Acc_Best v)))
  then mkAcc (Acc_Title v) (Acc_Note v) (Acc_Score v) t
  else v.
End MergeVocabulary.

(** The order of the specification between an earlier entry [a] and a
    later entry [b] of the merged list: an absent rank never precedes a
    present one, present ranks ascend, and equal ranks are told apart by
    ascending title. *)
Definition ranked_before (a b : Topic) : Prop :=
  ¬ (Rank a = 0 ∧ 0 < Rank b) ∧
  (0 < Rank a → 0 < Rank b → Rank a ≤ Rank b) ∧
  (Rank a = Rank b → string_lt (Title a) (Title b) = true).

(** An accumulator with its score erased. *)
Definition unscored (v : Acc) : Acc :=
  mkAcc (Acc_Title v) (Acc_Note v) 0 (Acc_Best v).

(** The entries of [l] that satisfy [P], each with its index in [l]
    (counted from [i]): what a loop that skips the others, and numbers
    all, collects. *)
Fixpoint survivors {A : Type} (P : A → Prop) `{∀ x, Decision (P x)}
    (i : nat) (l : list A) : list (nat * A) :=
  match l with
  | [] => []
  | x :: r =>
      if decide (P x) then (i, x) :: survivors P (S i) r
      else survivors P (S i) r
  end.

(** The first [max] entries when [max] is positive, all of them
    otherwise. *)
Definition cap {A : Type} (max : Z) (l : list A) : list A :=
  if 0 <? max then take (Z.to_nat max) l else l.

Section GoogleVocabulary.
Context (TrimSpace : string → string).
Context (reTraffic_FindString : string → string).
Context (xml_Decode : string → string + RSS).
Context (httpClient_Do : Request → DoResult).

(** An item survives the filter. *)
Definition titled (it : Item) : Prop := TrimSpace (Item_Title it) ≠ "".

(** The topic made of the item at index [i]. *)
Definition itemTopic (i : nat) (it : Item) : Topic :=
  mkTopic "google" (TrimSpace (Item_Title it))
    (reTraffic_FindString (Item_Description it)) (Z.of_nat i + 1).

(** A URL succeeds with [topics]: the exchange succeeds, the content type
    indicates XML, the body decodes as a feed, and at least one item
    survives the filter. *)
Definition succeeds (max : Z) (url : string) (topics : list Topic) : Prop :=
  ∃ resp rss,
    get httpClient_Do url = DoResponse resp ∧
    Contains (ContentType resp) "xml" = true ∧
    xml_Decode (Body resp) = inr rss ∧
    topics = collectItems TrimSpace reTraffic_FindString max 0
               (Channel_Items (RSS_Channel rss)) [] ∧
    topics ≠ [].

(** The reason a URL fails, for each criterion of success it can miss. *)
Definition fails (max : Z) (url : string) (reason : error) : Prop :=
  (∃ err, get httpClient_Do url = DoError err ∧ reason = google_request err) ∨
  (∃ resp, get httpClient_Do url = DoResponse resp ∧
     Contains (ContentType resp) "xml" = false ∧
     reason = google_non_XML (ContentType resp) (snippet512 (Body resp))) ∨
  (∃ resp err, get httpClient_Do url = DoResponse resp ∧
     Contains (ContentType resp) "xml" = true ∧
     xml_Decode (Body resp) = inl err ∧ reason = google_decode err) ∨
  (∃ resp rss, get httpClient_Do url = DoResponse resp ∧
     Contains (ContentType resp) "xml" = true ∧
     xml_Decode (Body resp) = inr rss ∧
     collectItems TrimSpace reTraffic_FindString max 0
       (Channel_Items (RSS_Channel rss)) [] = [] ∧
     reason = google_zero_items url).
End GoogleVocabulary.

Section YahooVocabulary.
Context (TrimSpace ToLower : string → string).

(** An anchor passes the filter of the first pass. *)
Definition trendLink (a : Anchor) : Prop :=
  TrimSpace (text a) ≠ "" ∧ Contains (href a) "/realtime/search" = true.

(** The topic made of the anchor at index [i] of the selection. *)
Definition anchorTopic (i : nat) (a : Anchor) : Topic :=
  mkTopic "yahoo" (TrimSpace (text a)) "" (Z.of_nat i + 1).

Definition dedupeKey (t : Topic) : string := ToLower (TrimSpace (Title t)).

(** Deduplication as the specification words it: the first topic of each
    non-empty key is kept where it stands, the later ones with that key
    are dropped. *)
Fixpoint firstOccurrences (l : list Topic) : list Topic :=
  match l with
  | [] => []
  | t :: r =>
      if decide (dedupeKey t = "") then firstOccurrences r
      else t :: filter (λ u, dedupeKey u ≠ dedupeKey t) (firstOccurrences r)
  end.

(** [t], at index [i] of [l], is the first topic of [l] with its key. *)
Definition firstWithKey (l : list Topic) (i : nat) (t : Topic) : Prop :=
  l !! i = Some t ∧ dedupeKey t ≠ "" ∧
  ∀ j u, (j < i)%nat → l !! j = Some u → dedupeKey u ≠ dedupeKey t.

(** The distinct non-empty keys of a list of topics. *)
Definition distinctKeys (l : list Topic) : gset string :=
  list_to_set (filter (λ k, k ≠ "") (dedupeKey <$> l)).
End YahooVocabulary.

(** ** Further vocabulary *)

Section MergeGroups.
Context (TrimSpace ToLower : string → string).

(** The topics of [inputs] that carry the merge key [k], in order. *)
Definition group (k : string) (inputs : list Topic) : list Topic :=
  filter (λ t, mergeKey TrimSpace ToLower (Title t) = k) inputs.

(** The non-empty notes of a list of topics, in order. *)
Definition notesOf (l : list Topic) : list string :=
  filter (λ n, n ≠ "") (Note <$> l).

(** The weight [add] gives a topic, and the sum of the weights of a list
    of topics. *)
Definition weightOf (wYahoo wOther : Z) (t : Topic) : Z :=
  if decide (Source t = "yahoo") then wYahoo else wOther.

Definition weightSum (wYahoo wOther : Z) (l : list Topic) : Z :=
  foldr Z.add 0 (weightOf wYahoo wOther <$> l).
End MergeGroups.

(** ** The search branch of [main]

    The block of [main] run under the flag [searchtopic]: both adapters
    are asked for ten topics (their errors are only logged), the run ends
    with [log.Fatal] when both lists are empty, and the theme is the title
    of a merged entry drawn with [rand.Intn], which panics on an argument
    that is not positive, as does an index out of range. *)
Inductive Outcome :=
| Fatal
| Panics
| Theme (selectedTheme : string).

Section SearchTopic.
Context (TrimSpace ToLower : string → string).
Context (reTraffic_FindString : string → string).
Context (xml_Decode : string → string + RSS).
Context (Document : Type).
Context (NewDocumentFromReader : string → string + Document).
Context (Find : Document → string → list Anchor).
Context (httpClient_Do : Request → DoResult).
Context (rand_Intn : Z → Z).

Definition searchTopic : Outcome :=
  let yahoo :=
    (fetchYahooRealtime TrimSpace ToLower Document NewDocumentFromReader
       Find httpClient_Do 10).1 in
  let google :=
    topics_of (fetchGoogleTrends TrimSpace reTraffic_FindString xml_Decode
                 httpClient_Do "JP" 10) in
  if (Z.of_nat (length yahoo) =? 0) && (Z.of_nat (length google) =? 0)
  then Fatal
  else
    let merged := mergeAndRank TrimSpace ToLower yahoo google 10 in
    if Z.of_nat (length merged) <=? 0 then Panics
    else
      let arrayIdx := rand_Intn (Z.of_nat (length merged)) in
      if (arrayIdx <? 0) || (Z.of_nat (length merged) <=? arrayIdx)
      then Panics
      else
        match merged !! Z.to_nat arrayIdx with
        | Some t => Theme (Title t)
        | None => Panics
        end.
End SearchTopic.

(** ** The request that cannot be built

    [http.NewRequestWithContext] refuses some URLs (one that holds a
    control byte, for instance): it then returns a nil request and an
    error.  [get] drops that error and sets headers on the request, which
    panics on a nil one.  [NewRequest_ok url] tells that the URL is
    accepted.  The definitions below are [get] and [fetchGoogleTrends]
    with that panic, [None] standing for it; where every URL is accepted
    they are [get] and [fetchGoogleTrends] above. *)
Section RequestPanic.
Context (TrimSpace : string → string).
Context (reTraffic_FindString : string → string).
Context (xml_Decode : string → string + RSS).
Context (httpClient_Do : Request → DoResult).
Context (NewRequest_ok : string → bool).

Definition getOrPanic (url : string) : option DoResult :=
  if NewRequest_ok url then Some (get httpClient_Do url) else None.

Fixpoint tryURLsOrPanic (max : Z) (candidates : list string)
    (lastErr : option error) (log : list string) : option Fetched :=
  match candidates with
  | [] => Some (mkFetched [] lastErr log)
  | url :: rest =>
      match getOrPanic url with
      | None => None
      | Some (DoError err) =>
          tryURLsOrPanic max rest (Some (google_request err)) (log ++ [url])
      | Some (DoResponse resp) =>
          let log := log ++ [url] in
          let ct := ContentType resp in
          if negb (Contains ct "xml")
          then tryURLsOrPanic max rest
                 (Some (google_non_XML ct (snippet512 (Body resp)))) log
          else
            match xml_Decode (Body resp) with
            | inl err => tryURLsOrPanic max rest (Some (google_decode err)) log
            | inr rss =>
                let topics :=
                  collectItems TrimSpace reTraffic_FindString max 0
                    (Channel_Items (RSS_Channel rss)) [] in
                if 0 <? Z.of_nat (length topics)
                then Some (mkFetched topics None log)
                else tryURLsOrPanic max rest (Some (google_zero_items url)) log
            end
      end
  end.

Definition fetchGoogleTrendsOrPanic (geo : string) (max : Z) : option Fetched :=
  tryURLsOrPanic max (urls geo) None [].
End RequestPanic.

(** One of the checks of [http.NewRequestWithContext], for the worked
    examples: no byte of the URL is an ASCII control byte. *)
Fixpoint noControlByte (url : string) : bool :=
  match url with
  | EmptyString => true
  | String c rest =>
      let n := N_of_ascii c in
      ((32 <=? n) && negb (n =? 127))%N && noControlByte rest
  end.

(** The region code "JP" followed by a line feed. *)
Definition geoWithLineFeed : string :=
  String "J" (String "P" (String (ascii_of_N 10) EmptyString)).

(** * Properties *)

(** ** The byte order on strings *)

Lemma string_compare_refl (s : string) : String.compare s s = Eq.
Proof.
  induction s as [|a s IH]; simpl; [done|].
  unfold Ascii.compare. by rewrite N.compare_refl.
Qed.

Lemma ascii_compare_lt_trans (a b c : ascii) :
  Ascii.compare a b = Lt → Ascii.compare b c = Lt → Ascii.compare a c = Lt.
Proof.
  unfold Ascii.compare. rewrite !N.compare_lt_iff. lia.
Qed.

Lemma string_compare_lt_trans (s1 s2 s3 : string) :
  String.compare s1 s2 = Lt → String.compare s2 s3 = Lt →
  String.compare s1 s3 = Lt.
Proof.
  revert s2 s3.
  induction s1 as [|a s1 IH]; intros [|b s2] [|c s3]; simpl; try done.
  destruct (Ascii.compare a b) eqn:Hab; try done.
  - apply Ascii.compare_eq_iff in Hab as ->.
    destruct (Ascii.compare b c) eqn:Hbc; try done. eauto.
  - intros _. destruct (Ascii.compare b c) eqn:Hbc; try done.
    + apply Ascii.compare_eq_iff in Hbc as <-. by rewrite Hab.
    + by rewrite (ascii_compare_lt_trans a b c).
Qed.

Lemma string_lt_irrefl (s : string) : string_lt s s = false.
Proof. unfold string_lt, String.ltb. by rewrite string_compare_refl. Qed.

Lemma string_lt_trans (s1 s2 s3 : string) :
  string_lt s1 s2 = true → string_lt s2 s3 = true → string_lt s1 s3 = true.
Proof.
  unfold string_lt, String.ltb.
  destruct (String.compare s1 s2) eqn:H12; try done.
  destruct (String.compare s2 s3) eqn:H23; try done.
  by rewrite (string_compare_lt_trans s1 s2 s3).
Qed.

Lemma string_lt_asym (s1 s2 : string) :
  string_lt s1 s2 = true → string_lt s2 s1 = false.
Proof.
  unfold string_lt, String.ltb. rewrite (String.compare_antisym s2 s1).
  by destruct (String.compare s1 s2).
Qed.

Lemma string_lt_total (s1 s2 : string) :
  string_lt s1 s2 = false → string_lt s2 s1 = false → s1 = s2.
Proof.
  unfold string_lt, String.ltb. rewrite (String.compare_antisym s2 s1).
  destruct (String.compare s1 s2) eqn:H; try done.
  intros _ _. by apply String.compare_eq_iff.
Qed.

Lemma string_ge_trans (s1 s2 s3 : string) :
  string_lt s2 s1 = false → string_lt s3 s2 = false → string_lt s3 s1 = false.
Proof.
  intros H21 H32. destruct (string_lt s3 s1) eqn:H31; [|done].
  destruct (string_lt s1 s2) eqn:H12.
  - by rewrite (string_lt_trans s3 s1 s2) in H32.
  - rewrite (string_lt_total s1 s2) in H31 by done. congruence.
Qed.

(** ** The comparator is a strict order, total on (rank, title) *)

Ltac less_cases :=
  unfold not_before, less;
  repeat match goal with
    | |- context [?x =? ?y] => destruct (Z.eqb_spec x y)
    | |- context [?x <? ?y] => destruct (Z.ltb_spec x y)
    end; simpl; try done; try lia.

Lemma less_irrefl (a : Topic) : less a a = false.
Proof. less_cases; apply string_lt_irrefl. Qed.

Lemma less_asym (a b : Topic) : less a b = true → less b a = false.
Proof. less_cases; apply string_lt_asym. Qed.

Lemma less_trans (a b c : Topic) :
  less a b = true → less b c = true → less a c = true.
Proof. less_cases; apply string_lt_trans. Qed.

Lemma less_total (a b : Topic) :
  less a b = false → less b a = false → Rank a = Rank b ∧ Title a = Title b.
Proof. less_cases; intros; (split; [done|]); by apply string_lt_total. Qed.

#[local] Instance not_before_less_trans : Transitive (not_before less).
Proof. intros a b c. less_cases; apply string_ge_trans. Qed.

(** ** The insertion sort meets the contract of [sort.Slice] *)

Section SortFacts.
Context {A : Type} (lessFn : A → A → bool).
Hypothesis lessFn_asym : ∀ a b, lessFn a b = true → lessFn b a = false.

Lemma sift_Permutation (x : A) (r : list A) : sift lessFn x r ≡ₚ x :: r.
Proof.
  induction r as [|y r IH]; simpl; [done|].
  destruct (lessFn x y); [|done].
  rewrite IH. apply Permutation_swap.
Qed.

Lemma sift_HdRel (x y : A) (r : list A) :
  lessFn y x = false →
  HdRel (flip (not_before lessFn)) y r →
  HdRel (flip (not_before lessFn)) y (sift lessFn x r).
Proof.
  intros Hyx Hr. destruct r as [|z r]; simpl.
  - by constructor.
  - destruct (lessFn x z); constructor; [by inv Hr | done].
Qed.

Lemma sift_Sorted (x : A) (r : list A) :
  Sorted (flip (not_before lessFn)) r →
  Sorted (flip (not_before lessFn)) (sift lessFn x r).
Proof.
  induction 1 as [|y r Hr IH Hy]; simpl.
  - repeat constructor.
  - destruct (lessFn x y) eqn:Hxy.
    + constructor; [done|]. apply sift_HdRel; auto.
    + repeat (constructor; try done).
Qed.

Lemma foldl_sift_Permutation (data r : list A) :
  foldl (λ rprefix x, sift lessFn x rprefix) r data ≡ₚ data ++ r.
Proof.
  revert r. induction data as [|x data IH]; intros r; simpl; [done|].
  rewrite IH, sift_Permutation. by rewrite Permutation_middle.
Qed.

Lemma foldl_sift_Sorted (data r : list A) :
  Sorted (flip (not_before lessFn)) r →
  Sorted (flip (not_before lessFn))
    (foldl (λ rprefix x, sift lessFn x rprefix) r data).
Proof.
  revert r. induction data as [|x data IH]; intros r Hr; simpl; [done|].
  by apply IH, sift_Sorted.
Qed.

Lemma sort_Slice_meets_spec (data : list A) :
  sort_Slice_spec lessFn data (sort_Slice lessFn data).
Proof.
  unfold sort_Slice_spec, sort_Slice. split.
  - by rewrite reverse_Permutation, foldl_sift_Permutation, app_nil_r.
  - apply (Sorted_reverse (flip (not_before lessFn))), foldl_sift_Sorted.
    constructor.
Qed.
End SortFacts.

(** Two sorted arrangements of topics with pairwise distinct titles are
    the same list. *)
Lemma NoDup_fmap_eq {A B : Type} (f : A → B) (l : list A) (x y : A) :
  NoDup (f <$> l) → x ∈ l → y ∈ l → f x = f y → x = y.
Proof.
  induction l as [|z l IH]; simpl; [by inversion 2|].
  rewrite NoDup_cons, list_elem_of_fmap. intros [Hz Hl] Hx Hy Hf.
  inv Hx; inv Hy; try done.
  - destruct Hz. eauto.
  - destruct Hz. exists x. eauto.
  - eauto.
Qed.

Lemma sort_Slice_spec_unique (data s1 s2 : list Topic) :
  NoDup (Title <$> data) →
  sort_Slice_spec less data s1 → sort_Slice_spec less data s2 → s1 = s2.
Proof.
  intros Hnd [Hp1 Hs1] [Hp2 Hs2].
  apply (Sorted_unique_strong (not_before less)); try done.
  - intros x1 x2 Hx1 Hx2 H12 H21.
    apply (NoDup_fmap_eq Title data); [done|by rewrite <-Hp1|by rewrite <-Hp2|].
    by apply less_total.
  - by rewrite Hp1, Hp2.
Qed.

(** ** The accumulator map *)

Section MergeFacts.
Context (TrimSpace ToLower : string → string).

Local Abbreviation keyOf t := (mergeKey TrimSpace ToLower (Title t)).
Local Abbreviation addW := (addWith TrimSpace ToLower).

Lemma addWith_lookup (wy wo : Z) (acc : gmap string Acc) (t : Topic) (k : string) :
  addW wy wo acc t !! k =
    if decide (keyOf t = "") then acc !! k
    else if decide (keyOf t = k)
         then Some (updated wy wo (default (mkAcc (Title t) [] 0 t) (acc !! k)) t)
         else acc !! k.
Proof.
  unfold addWith, updated. destruct (decide (keyOf t = "")) as [|Hne]; [done|].
  destruct (decide (keyOf t = k)) as [<-|Hk].
  - rewrite lookup_alter_eq.
    destruct (decide (Note t = "")), (acc !! keyOf t) eqn:Hacc;
      rewrite ?lookup_alter_eq, ?lookup_insert_eq, ?Hacc; done.
  - rewrite lookup_alter_ne by done.
    destruct (decide (Note t = "")), (acc !! keyOf t) eqn:Hacc;
      rewrite ?lookup_alter_ne, ?lookup_insert_ne by done; done.
Qed.

Lemma accumulateWith_app (wy wo : Z) (yahoo google : list Topic) :
  accumulateWith TrimSpace ToLower wy wo yahoo google
  = foldl (addW wy wo) ∅ (yahoo ++ google).
Proof. unfold accumulateWith. by rewrite foldl_app. Qed.

Lemma updated_Title (wy wo : Z) (v : Acc) (t : Topic) :
  Acc_Title (updated wy wo v t) = Acc_Title v.
Proof.
  unfold updated.
  by destruct (decide (Note t = "")); simpl; case_match.
Qed.

(** Every accumulator sits at the key of the title it stores, and no key
    is empty. *)
Lemma acc_key_of_title (wy wo : Z) (l : list Topic) (k : string) (v : Acc) :
  foldl (addW wy wo) ∅ l !! k = Some v →
  mergeKey TrimSpace ToLower (Acc_Title v) = k ∧ k ≠ "".
Proof.
  revert k v. induction l as [|t l IH] using rev_ind; intros k v.
  - simpl. by rewrite lookup_empty.
  - rewrite foldl_snoc, addWith_lookup.
    destruct (decide (keyOf t = "")); [by apply IH|].
    destruct (decide (keyOf t = k)) as [<-|]; [|by apply IH].
    intros [= <-]. rewrite updated_Title. split; [|done].
    destruct (foldl (addW wy wo) ∅ l !! keyOf t) eqn:Hl; simpl; [|done].
    by apply IH in Hl as [? _].
Qed.

(** The keys of the map are the non-empty keys of the topics folded in. *)
Lemma acc_dom (wy wo : Z) (l : list Topic) (k : string) :
  is_Some (foldl (addW wy wo) ∅ l !! k) ↔
  k ≠ "" ∧ ∃ t, contributes TrimSpace ToLower k l t.
Proof.
  unfold contributes. induction l as [|t l IH] using rev_ind.
  - simpl. rewrite lookup_empty. split; [by intros [? ?]|].
    intros [_ (t & Ht & _)]. by apply elem_of_nil in Ht.
  - rewrite foldl_snoc, addWith_lookup.
    setoid_rewrite elem_of_app. setoid_rewrite list_elem_of_singleton.
    destruct (decide (keyOf t = "")) as [He|Hne].
    + rewrite IH. split.
      * intros [Hk (t' & Ht' & Hkey)]. split; [done|]. exists t'. auto.
      * intros [Hk (t' & [Ht'| ->] & Hkey)]; [|congruence].
        split; [done|]. exists t'. auto.
    + destruct (decide (keyOf t = k)) as [<-|Hk].
      * split; [|by eauto]. intros _. split; [done|]. exists t. auto.
      * rewrite IH. split.
        -- intros [Hk' (t' & Ht' & Hkey)]. split; [done|]. exists t'. auto.
        -- intros [Hk' (t' & [Ht'| ->] & Hkey)]; [|congruence].
           split; [done|]. exists t'. auto.
Qed.
Lemma contributes_snoc (k : string) (l : list Topic) (t t' : Topic) :
  contributes TrimSpace ToLower k (l ++ [t]) t' ↔
  contributes TrimSpace ToLower k l t' ∨ (t' = t ∧ keyOf t = k).
Proof.
  unfold contributes. rewrite elem_of_app, list_elem_of_singleton.
  split.
  - intros [[?| ->] ?]; auto.
  - intros [[? ?]|[-> ?]]; auto.
Qed.

Lemma min_positive_rank_snoc_other (k : string) (l : list Topic) (t : Topic) (r : Z) :
  keyOf t ≠ k →
  min_positive_rank TrimSpace ToLower k l r →
  min_positive_rank TrimSpace ToLower k (l ++ [t]) r.
Proof.
  intros Hk [(Hr & (t0 & Ht0 & Hrt0) & Hmin)|[-> Hnone]]; [left|right].
  - split; [done|]. split.
    + exists t0. split; [|done]. apply contributes_snoc. by left.
    + intros t' [?|[_ ?]]%contributes_snoc; [auto|done].
  - split; [done|]. intros t' [?|[_ ?]]%contributes_snoc; [auto|done].
Qed.

Lemma updated_Best_Rank (wy wo : Z) (v : Acc) (t : Topic) :
  Rank (Acc_Best (updated wy wo v t)) =
    if (0 <? Rank t) &&
       ((Rank (Acc_Best v) =? 0) || (Rank t <? Rank (Acc_Best v)))
    then Rank t else Rank (Acc_Best v).
Proof.
  unfold updated.
  by destruct (decide (Note t = "")); simpl; case_match.
Qed.

(** The rank kept in [Best] is the least positive rank folded in at the
    key, or 0, provided no rank is negative. *)
Lemma acc_best_rank (wy wo : Z) (l : list Topic) (k : string) (v : Acc) :
  Forall (λ t, 0 ≤ Rank t) l →
  foldl (addW wy wo) ∅ l !! k = Some v →
  min_positive_rank TrimSpace ToLower k l (Rank (Acc_Best v)).
Proof.
  revert k v. induction l as [|t l IH] using rev_ind; intros k v Hpos.
  { simpl. by rewrite lookup_empty. }
  apply Forall_app in Hpos as [Hl Ht]. rewrite Forall_singleton in Ht.
  rewrite foldl_snoc, addWith_lookup.
  destruct (decide (keyOf t = "")) as [He|Hne].
  { intros Hv. apply min_positive_rank_snoc_other; [|by apply IH].
    apply acc_key_of_title in Hv as [_ ?]. congruence. }
  destruct (decide (keyOf t = k)) as [<-|Hk].
  2:{ intros Hv. apply min_positive_rank_snoc_other; [done|by apply IH]. }
  intros [= <-]. rewrite updated_Best_Rank.
  destruct (foldl (addW wy wo) ∅ l !! keyOf t) as [v0|] eqn:Hv0; simpl.
  - assert (contributes TrimSpace ToLower (keyOf t) (l ++ [t]) t) as Hct
      by (apply contributes_snoc; by right).
    destruct (IH _ _ Hl Hv0) as [(Hr & (t0 & Ht0 & Hrt0) & Hmin)|[Hr Hnone]].
    + assert (contributes TrimSpace ToLower (keyOf t) (l ++ [t]) t0) as Hct0
        by (apply contributes_snoc; by left).
      destruct (Z.ltb_spec 0 (Rank t)), (Z.eqb_spec (Rank (Acc_Best v0)) 0),
        (Z.ltb_spec (Rank t) (Rank (Acc_Best v0))); simpl; try lia; left;
        (split; [lia|]);
        (split; [first [by exists t | by exists t0]|]);
        intros t' [Hc|[-> _]]%contributes_snoc Hp; try lia;
        specialize (Hmin _ Hc Hp); lia.
    + rewrite Hr. simpl. rewrite andb_true_r.
      destruct (Z.ltb_spec 0 (Rank t)); [left|right].
      * split; [done|]. split; [by exists t|].
        intros t' [Hc|[-> _]]%contributes_snoc Hp; [|lia].
        by destruct (Hnone _ Hc).
      * split; [done|].
        intros t' [Hc|[-> _]]%contributes_snoc; [auto|lia].
  - assert (∀ t', ¬ contributes TrimSpace ToLower (keyOf t) l t') as Hnone.
    { intros t' Hc. apply eq_None_not_Some in Hv0. apply Hv0, acc_dom. eauto. }
    rewrite Z.ltb_irrefl, orb_false_r.
    replace (if (0 <? Rank t) && (Rank t =? 0) then Rank t else Rank t)
      with (Rank t) by by case_match.
    assert (contributes TrimSpace ToLower (keyOf t) (l ++ [t]) t) as Hct
      by (apply contributes_snoc; by right).
    destruct (Z.ltb_spec 0 (Rank t)); [left|right].
    + split; [done|]. split; [by exists t|].
      intros t' [Hc|[-> _]]%contributes_snoc Hp; [|lia].
      by destruct (Hnone _ Hc).
    + split; [lia|].
      intros t' [Hc|[-> _]]%contributes_snoc; [|lia]. by destruct (Hnone _ Hc).
Qed.

(** The score takes no part in the rest of an accumulator, nor in what
    is emitted from it. *)
Lemma unscored_updated (wy wo wy' wo' : Z) (v v' : Acc) (t : Topic) :
  unscored v = unscored v' →
  unscored (updated wy wo v t) = unscored (updated wy' wo' v' t).
Proof.
  destruct v, v'. unfold unscored, updated. simpl. intros [= -> -> ->].
  by destruct (decide (Note t = "")); simpl; case_match.
Qed.

Lemma emit_unscored (v : Acc) : emit (unscored v) = emit v.
Proof. done. Qed.

Lemma accumulate_unscored (wy wo wy' wo' : Z) (l : list Topic) :
  unscored <$> foldl (addW wy wo) ∅ l = unscored <$> foldl (addW wy' wo') ∅ l.
Proof.
  induction l as [|t l IH] using rev_ind; [done|].
  apply map_eq. intros k.
  apply (f_equal (.!! k)) in IH. rewrite !lookup_fmap in IH.
  rewrite !lookup_fmap, !foldl_snoc, !addWith_lookup.
  destruct (decide (keyOf t = "")); [done|].
  destruct (decide (keyOf t = k)); [|done].
  simpl. f_equal. apply unscored_updated.
  destruct (foldl (addW wy wo) ∅ l !! k), (foldl (addW wy' wo') ∅ l !! k);
    simpl in *; try done. congruence.
Qed.

Lemma emitted_of_fmap (m : gmap string Acc) :
  emit <$> (map_to_list m).*2 = (map_to_list (emit <$> m)).*2.
Proof.
  rewrite map_to_list_fmap, <-!list_fmap_compose.
  apply list_fmap_ext. by intros i [k v] _.
Qed.

Lemma emitted_any_weights (wy wo wy' wo' : Z) (l : list Topic) :
  emit <$> (map_to_list (foldl (addW wy wo) ∅ l)).*2
  = emit <$> (map_to_list (foldl (addW wy' wo') ∅ l)).*2.
Proof.
  rewrite !emitted_of_fmap.
  rewrite <-(map_fmap_ext (emit ∘ unscored) emit) by done.
  rewrite <-(map_fmap_ext (emit ∘ unscored) emit
               (foldl (addW wy' wo') ∅ l)) by done.
  rewrite !map_fmap_compose. by rewrite (accumulate_unscored wy wo wy' wo').
Qed.
End MergeFacts.

(** ** The merged list *)

Lemma truncate_take (topN : Z) (merged : list Topic) :
  truncate topN merged
  = take (if 0 <? topN then Z.to_nat topN else length merged) merged.
Proof.
  unfold truncate.
  destruct (Z.ltb_spec 0 topN); simpl; [|by rewrite firstn_all].
  destruct (Z.ltb_spec topN (Z.of_nat (length merged))); [done|].
  rewrite take_ge; [done|lia].
Qed.

Lemma truncate_all (topN : Z) (merged : list Topic) :
  topN ≤ 0 ∨ Z.of_nat (length merged) ≤ topN → truncate topN merged = merged.
Proof.
  unfold truncate. intros H.
  destruct (Z.ltb_spec 0 topN), (Z.ltb_spec topN (Z.of_nat (length merged)));
    simpl; try done; lia.
Qed.

Lemma StronglySorted_take {A : Type} (R : relation A) (n : nat) (l : list A) :
  StronglySorted R l → StronglySorted R (take n l).
Proof.
  intros Hl. rewrite <-(take_drop n l) in Hl.
  by apply StronglySorted_app_1_l in Hl.
Qed.

Lemma StronglySorted_lookup {A : Type} (R : relation A) (l : list A)
    (i j : nat) (a b : A) :
  StronglySorted R l → (i < j)%nat → l !! i = Some a → l !! j = Some b → R a b.
Proof.
  intros Hl. revert i j. induction Hl as [|x l Hl IH Hx]; intros i j Hij Hi Hj.
  - done.
  - destruct j as [|j]; [lia|]. destruct i as [|i]; simpl in *.
    + injection Hi as <-. rewrite Forall_forall in Hx.
      eapply Hx, list_elem_of_lookup_2, Hj.
    + apply (IH i j); [lia|done..].
Qed.

(** In a sorted list of topics with distinct titles every earlier entry
    is [less] than every later one. *)
Lemma Sorted_less_strict (l : list Topic) :
  NoDup (Title <$> l) → Sorted (not_before less) l →
  StronglySorted (λ a b, less a b = true) l.
Proof.
  intros Hnd Hl. apply Sorted_StronglySorted in Hl; [|apply _].
  induction Hl as [|x l Hl IH Hx]; [constructor|].
  simpl in Hnd. apply NoDup_cons in Hnd as [Hx' Hnd].
  constructor; [by apply IH|].
  rewrite Forall_forall in Hx |- *. intros y Hy.
  destruct (less x y) eqn:Hxy; [done|].
  destruct (less_total x y Hxy (Hx y Hy)) as [_ Heq].
  destruct Hx'. rewrite Heq. apply list_elem_of_fmap. eauto.
Qed.

Lemma less_ranked_before (a b : Topic) : less a b = true → ranked_before a b.
Proof.
  unfold ranked_before. less_cases; intros; repeat split; try lia; try done.
Qed.

Section MergeOutput.
Context (TrimSpace ToLower : string → string).

Local Abbreviation keyOf t := (mergeKey TrimSpace ToLower (Title t)).
Local Abbreviation addW := (addWith TrimSpace ToLower).
Local Abbreviation emitted m := (emit <$> (map_to_list m).*2).

Lemma emitted_keys (wy wo : Z) (l : list Topic) :
  (λ o, keyOf o) <$> emitted (foldl (addW wy wo) ∅ l)
  = (map_to_list (foldl (addW wy wo) ∅ l)).*1.
Proof.
  rewrite <-!list_fmap_compose. apply list_fmap_ext.
  intros i [k v] Hi. simpl.
  apply list_elem_of_lookup_2, elem_of_map_to_list in Hi.
  by apply acc_key_of_title in Hi as [? _].
Qed.

Lemma emitted_keys_NoDup (wy wo : Z) (l : list Topic) :
  NoDup ((λ o, keyOf o) <$> emitted (foldl (addW wy wo) ∅ l)).
Proof. rewrite emitted_keys. apply NoDup_fst_map_to_list. Qed.

(** Distinct keys of the map store distinct display titles. *)
Lemma emitted_titles_NoDup (wy wo : Z) (l : list Topic) :
  NoDup (Title <$> emitted (foldl (addW wy wo) ∅ l)).
Proof.
  apply (NoDup_fmap_1 (mergeKey TrimSpace ToLower)).
  rewrite <-list_fmap_compose. apply emitted_keys_NoDup.
Qed.

Lemma elem_of_emitted (m : gmap string Acc) (o : Topic) :
  o ∈ emitted m ↔ ∃ k v, m !! k = Some v ∧ o = emit v.
Proof.
  rewrite list_elem_of_fmap. setoid_rewrite list_elem_of_fmap. split.
  - intros (v & -> & [k v'] & -> & Hkv). apply elem_of_map_to_list in Hkv.
    by exists k, v'.
  - intros (k & v & Hkv & ->). exists v. split; [done|].
    exists (k, v). split; [done|]. by apply elem_of_map_to_list.
Qed.

Lemma mergeAndRankWith_unfold (wy wo : Z) (yahoo google : list Topic) (topN : Z) :
  mergeAndRankWith TrimSpace ToLower wy wo yahoo google topN
  = truncate topN
      (sort_Slice less (emitted (foldl (addW wy wo) ∅ (yahoo ++ google)))).
Proof. unfold mergeAndRankWith. by rewrite accumulateWith_app. Qed.

Lemma sorted_emitted_Permutation (wy wo : Z) (l : list Topic) :
  sort_Slice less (emitted (foldl (addW wy wo) ∅ l))
  ≡ₚ emitted (foldl (addW wy wo) ∅ l).
Proof. apply (sort_Slice_meets_spec less less_asym). Qed.

Lemma sorted_emitted_strict (wy wo : Z) (l : list Topic) :
  StronglySorted (λ a b, less a b = true)
    (sort_Slice less (emitted (foldl (addW wy wo) ∅ l))).
Proof.
  apply Sorted_less_strict.
  - rewrite sorted_emitted_Permutation. apply emitted_titles_NoDup.
  - apply (sort_Slice_meets_spec less less_asym).
Qed.

Lemma mergeAndRankWith_weights (wy wo wy' wo' : Z)
    (yahoo google : list Topic) (topN : Z) :
  mergeAndRankWith TrimSpace ToLower wy wo yahoo google topN
  = mergeAndRankWith TrimSpace ToLower wy' wo' yahoo google topN.
Proof.
  rewrite !mergeAndRankWith_unfold.
  by rewrite (emitted_any_weights TrimSpace ToLower wy wo wy' wo').
Qed.

Lemma elem_of_mergeAndRankWith (wy wo : Z) (yahoo google : list Topic)
    (topN : Z) (o : Topic) :
  o ∈ mergeAndRankWith TrimSpace ToLower wy wo yahoo google topN →
  ∃ k v, foldl (addW wy wo) ∅ (yahoo ++ google) !! k = Some v ∧ o = emit v.
Proof.
  rewrite mergeAndRankWith_unfold, truncate_take.
  intros Ho%elem_of_take. destruct Ho as (i & Hi%list_elem_of_lookup_2 & _).
  rewrite sorted_emitted_Permutation in Hi. by apply elem_of_emitted.
Qed.

(** Without truncation the keys of the output are the keys of the map. *)
Lemma untruncated_keys (wy wo : Z) (yahoo google : list Topic) :
  (λ o, keyOf o) <$> mergeAndRankWith TrimSpace ToLower wy wo yahoo google 0
  ≡ₚ (map_to_list (foldl (addW wy wo) ∅ (yahoo ++ google))).*1.
Proof.
  rewrite mergeAndRankWith_unfold, truncate_all by lia.
  by rewrite sorted_emitted_Permutation, emitted_keys.
Qed.

Lemma mergeAndRankWith_keys_NoDup (wy wo : Z) (yahoo google : list Topic)
    (topN : Z) :
  NoDup ((λ o, keyOf o) <$>
           mergeAndRankWith TrimSpace ToLower wy wo yahoo google topN).
Proof.
  rewrite mergeAndRankWith_unfold, truncate_take, fmap_take.
  eapply sublist_NoDup; [|apply sublist_take].
  rewrite sorted_emitted_Permutation. apply emitted_keys_NoDup.
Qed.
End MergeOutput.

Lemma occurrences_NoDup {A : Type} (f : A → string) (k : string) (l : list A) :
  NoDup (f <$> l) →
  (length (filter (λ o, f o = k) l) ≤ 1)%nat ∧
  (k ∈ f <$> l → length (filter (λ o, f o = k) l) = 1%nat).
Proof.
  induction l as [|x l IH]; simpl.
  - split; [lia|]. by intros ?%elem_of_nil.
  - rewrite NoDup_cons. intros [Hx Hl]. destruct (IH Hl) as [IH1 IH2].
    rewrite filter_cons. destruct (decide (f x = k)) as [<-|Hk]; simpl.
    + assert (filter (λ o, f o = f x) l = []) as ->.
      { apply elem_of_nil_inv. intros y [Hy ?]%list_elem_of_filter.
        apply Hx, list_elem_of_fmap. eauto. }
      simpl. split; [lia|done].
    + split; [done|]. rewrite elem_of_cons. intros [?|?]; [congruence|auto].
Qed.

Section MergeClaims.
Context (TrimSpace ToLower : string → string).

Local Abbreviation keyOf t := (mergeKey TrimSpace ToLower (Title t)).
Local Abbreviation addW := (addWith TrimSpace ToLower).
Local Abbreviation merge := (mergeAndRank TrimSpace ToLower).

Lemma mergeAndRank_untruncated (yahoo google : list Topic) (topN : Z) :
  topN ≤ 0 ∨ Z.of_nat (length (merge yahoo google 0)) ≤ topN →
  merge yahoo google topN = merge yahoo google 0.
Proof.
  unfold mergeAndRank. rewrite !mergeAndRankWith_unfold.
  rewrite (truncate_all 0) by lia. apply truncate_all.
Qed.

Lemma untruncated_has_key (yahoo google : list Topic) (k : string) :
  k ∈ (λ o, keyOf o) <$> merge yahoo google 0 ↔
  k ≠ "" ∧ ∃ t, contributes TrimSpace ToLower k (yahoo ++ google) t.
Proof.
  unfold mergeAndRank. rewrite untruncated_keys, <-acc_dom.
  rewrite list_elem_of_fmap. split.
  - intros ([k' v] & -> & Hkv). apply elem_of_map_to_list in Hkv. by exists v.
  - intros [v Hv]. exists (k, v). split; [done|]. by apply elem_of_map_to_list.
Qed.

Lemma untruncated_keySet_comm (A B : list Topic) :
  keySet TrimSpace ToLower (merge A B 0) = keySet TrimSpace ToLower (merge B A 0).
Proof.
  unfold keySet. apply set_eq. intros k.
  rewrite !elem_of_list_to_set, !untruncated_has_key.
  unfold contributes. by setoid_rewrite (elem_of_app A B); setoid_rewrite (elem_of_app B A);
    setoid_rewrite (or_comm (_ ∈ A)).
Qed.

Lemma untruncated_length_comm (A B : list Topic) :
  length (merge A B 0) = length (merge B A 0).
Proof.
  rewrite <-(length_fmap (λ o, keyOf o) (merge A B 0)).
  rewrite <-(length_fmap (λ o, keyOf o) (merge B A 0)).
  rewrite <-!(size_list_to_set (C:=gset string))
    by apply mergeAndRankWith_keys_NoDup.
  pose proof (untruncated_keySet_comm A B) as Hset. unfold keySet in Hset.
  by rewrite Hset.
Qed.
End MergeClaims.

(** ** Properties of the merger *)

Lemma mergeAndRank_key_nonempty (TrimSpace ToLower : string → string)
    (yahoo google : list Topic) (topN : Z) (o : Topic) :
  o ∈ mergeAndRank TrimSpace ToLower yahoo google topN →
  mergeKey TrimSpace ToLower (Title o) ≠ "".
Proof.
  intros (k & v & Hv & ->)%elem_of_mergeAndRankWith.
  apply acc_key_of_title in Hv as [Hk Hne]. simpl. by rewrite Hk.
Qed.

(** C1, as amended: a title of either input list whose normalized key is
    empty is discarded: no entry of the list [mergeAndRank] returns
    carries its key; a title whose normalized key is not empty occurs at
    most once, by normalized key, in that list, and exactly once when the
    cap does not cut the merged list ([topN <= 0], or [topN] at least the
    number of merged entries). *)
Theorem mergeAndRank_title_once (TrimSpace ToLower : string → string)
    (yahoo google : list Topic) (topN : Z) (t : Topic) :
  t ∈ yahoo ++ google →
  (mergeKey TrimSpace ToLower (Title t) = "" →
   occurrences TrimSpace ToLower (mergeKey TrimSpace ToLower (Title t))
     (mergeAndRank TrimSpace ToLower yahoo google topN) = 0%nat) ∧
  (mergeKey TrimSpace ToLower (Title t) ≠ "" →
   (occurrences TrimSpace ToLower (mergeKey TrimSpace ToLower (Title t))
      (mergeAndRank TrimSpace ToLower yahoo google topN) ≤ 1)%nat ∧
   (topN ≤ 0 ∨
    Z.of_nat (length (mergeAndRank TrimSpace ToLower yahoo google 0)) ≤ topN →
    occurrences TrimSpace ToLower (mergeKey TrimSpace ToLower (Title t))
      (mergeAndRank TrimSpace ToLower yahoo google topN) = 1%nat)).
Proof.
  intros Ht. unfold occurrences. split.
  - intros Hkey. rewrite Hkey.
    assert (filter (λ o, mergeKey TrimSpace ToLower (Title o) = "")
              (mergeAndRank TrimSpace ToLower yahoo google topN) = []) as ->;
      [|done].
    apply elem_of_nil_inv. intros o [Hk Ho]%list_elem_of_filter.
    by apply mergeAndRank_key_nonempty in Ho.
  - intros Hkey.
    destruct (occurrences_NoDup (λ o, mergeKey TrimSpace ToLower (Title o))
                (mergeKey TrimSpace ToLower (Title t))
                (mergeAndRank TrimSpace ToLower yahoo google topN)) as [Hle Heq].
    { apply mergeAndRankWith_keys_NoDup. }
    split; [done|]. intros Hcap. apply Heq.
    rewrite mergeAndRank_untruncated by done.
    apply untruncated_has_key. split; [done|]. by exists t.
Qed.

Lemma mergeAndRank_title_once_witness :
  occurrences TrimSpaceASCII ToLowerASCII "foo"
    (mergeAndRank TrimSpaceASCII ToLowerASCII
       [mkTopic "yahoo" "Foo " "" 1] [mkTopic "google" "foo" "" 4] 10)
  = 1%nat.
Proof.
  refine (proj2 (proj2 (mergeAndRank_title_once TrimSpaceASCII ToLowerASCII
                          [mkTopic "yahoo" "Foo " "" 1]
                          [mkTopic "google" "foo" "" 4]
                          10 (mkTopic "yahoo" "Foo " "" 1) _) _) _).
  - simpl. left.
  - vm_compute. discriminate.
  - right. vm_compute. discriminate.
Defined.

(** C1, as stated, fails: with the cap 1 the second of two titles is cut
    from the output, and a title that trims to nothing is never merged. *)
Lemma mergeAndRank_title_missing :
  mkTopic "yahoo" "B" "" 2
    ∈ [mkTopic "yahoo" "A" "" 1; mkTopic "yahoo" "B" "" 2] ++ [] ∧
  occurrences TrimSpaceASCII ToLowerASCII
    (mergeKey TrimSpaceASCII ToLowerASCII "B")
    (mergeAndRank TrimSpaceASCII ToLowerASCII
       [mkTopic "yahoo" "A" "" 1; mkTopic "yahoo" "B" "" 2] [] 1) = 0%nat ∧
  mkTopic "google" "  " "" 1 ∈ [] ++ [mkTopic "google" "  " "" 1] ∧
  occurrences TrimSpaceASCII ToLowerASCII
    (mergeKey TrimSpaceASCII ToLowerASCII "  ")
    (mergeAndRank TrimSpaceASCII ToLowerASCII
       [] [mkTopic "google" "  " "" 1] 0) = 0%nat.
Proof.
  split; [simpl; right; left|].
  split; [by vm_compute|].
  split; [simpl; left|].
  by vm_compute.
Qed.

(** C2: in the list [mergeAndRank] returns, an entry with rank 0 never
    precedes an entry with a positive rank, entries with positive ranks
    stand in ascending rank, and entries with equal ranks (both 0
    included) stand in ascending order of title. *)
Theorem mergeAndRank_sorted (TrimSpace ToLower : string → string)
    (yahoo google : list Topic) (topN : Z) (i j : nat) (a b : Topic) :
  (i < j)%nat →
  mergeAndRank TrimSpace ToLower yahoo google topN !! i = Some a →
  mergeAndRank TrimSpace ToLower yahoo google topN !! j = Some b →
  ranked_before a b.
Proof.
  unfold mergeAndRank. rewrite mergeAndRankWith_unfold, truncate_take.
  intros Hij Hi Hj. apply less_ranked_before.
  eapply (StronglySorted_lookup (λ a b, less a b = true)); [|done..].
  apply StronglySorted_take, sorted_emitted_strict.
Qed.

Lemma mergeAndRank_sorted_witness :
  ranked_before (mkTopic "mix" "late" "" 7) (mkTopic "mix" "Early" "" 0).
Proof.
  apply (mergeAndRank_sorted TrimSpaceASCII ToLowerASCII
           [mkTopic "yahoo" "Early" "" 0] [mkTopic "google" "late" "" 7]
           0 0 1); [lia | reflexivity | reflexivity].
Defined.

(** C3: the rank of every merged entry is the least positive rank among
    the input topics of its normalized title, and 0 when none of them has
    a positive rank (ranks being positive or 0, as the data model has
    them); and "A"(3), "A"(1), "B"(2) merge into A with rank 1 followed by
    B with rank 2. *)
Theorem mergeAndRank_best_rank :
  (∀ (TrimSpace ToLower : string → string) (yahoo google : list Topic)
     (topN : Z) (o : Topic),
     Forall (λ t, 0 ≤ Rank t) (yahoo ++ google) →
     o ∈ mergeAndRank TrimSpace ToLower yahoo google topN →
     min_positive_rank TrimSpace ToLower
       (mergeKey TrimSpace ToLower (Title o)) (yahoo ++ google) (Rank o)) ∧
  mergeAndRank TrimSpaceASCII ToLowerASCII
    [mkTopic "yahoo" "A" "" 3]
    [mkTopic "google" "A" "" 1; mkTopic "google" "B" "" 2] 0
  = [mkTopic "mix" "A" "" 1; mkTopic "mix" "B" "" 2].
Proof.
  split; [|by vm_compute].
  intros TrimSpace ToLower yahoo google topN o Hpos Ho.
  apply elem_of_mergeAndRankWith in Ho as (k & v & Hv & ->).
  pose proof (acc_key_of_title _ _ _ _ _ _ _ Hv) as [Hk _].
  simpl. rewrite Hk. by eapply acc_best_rank.
Qed.

Lemma mergeAndRank_best_rank_witness :
  min_positive_rank TrimSpaceASCII ToLowerASCII
    (mergeKey TrimSpaceASCII ToLowerASCII "A")
    ([mkTopic "yahoo" "A" "" 3] ++
     [mkTopic "google" "A" "" 1; mkTopic "google" "B" "" 2]) 1.
Proof.
  apply (proj1 mergeAndRank_best_rank TrimSpaceASCII ToLowerASCII
           [mkTopic "yahoo" "A" "" 3]
           [mkTopic "google" "A" "" 1; mkTopic "google" "B" "" 2] 0
           (mkTopic "mix" "A" "" 1)).
  - repeat constructor; simpl; lia.
  - vm_compute. left.
Defined.

(** C4: the score is accumulated (3 for a topic whose source is "yahoo",
    2 for any other) and read nowhere: an emitted entry does not depend on
    the score of its accumulator, and [mergeAndRank] returns the same list
    whatever the two weights are. *)
Theorem mergeAndRank_score_inert :
  (∀ (TrimSpace ToLower : string → string) (wYahoo wOther : Z)
     (yahoo google : list Topic) (topN : Z),
     mergeAndRankWith TrimSpace ToLower wYahoo wOther yahoo google topN
     = mergeAndRank TrimSpace ToLower yahoo google topN) ∧
  (∀ (v : Acc) (score : Z),
     emit (mkAcc (Acc_Title v) (Acc_Note v) score (Acc_Best v)) = emit v) ∧
  Acc_Score <$>
    (accumulateWith TrimSpaceASCII ToLowerASCII 3 2
       [mkTopic "yahoo" "A" "" 3]
       [mkTopic "google" "a" "" 1; mkTopic "google" "B" "" 2] !! "a")
  = Some 5.
Proof.
  split; [|split].
  - intros. apply mergeAndRankWith_weights.
  - done.
  - by vm_compute.
Qed.

(** C5, as amended: when the cap does not cut the merged list
    ([topN <= 0], or [topN] at least the number of merged entries), the
    lists [mergeAndRank] returns for (A, B) and for (B, A) carry the same
    set of normalized titles. *)
Theorem mergeAndRank_keys_comm (TrimSpace ToLower : string → string)
    (A B : list Topic) (topN : Z) :
  topN ≤ 0 ∨
  Z.of_nat (length (mergeAndRank TrimSpace ToLower A B 0)) ≤ topN →
  keySet TrimSpace ToLower (mergeAndRank TrimSpace ToLower A B topN)
  = keySet TrimSpace ToLower (mergeAndRank TrimSpace ToLower B A topN).
Proof.
  intros Hcap.
  rewrite (mergeAndRank_untruncated _ _ A B) by done.
  rewrite (mergeAndRank_untruncated _ _ B A)
    by by rewrite (untruncated_length_comm _ _ B A).
  apply untruncated_keySet_comm.
Qed.

Lemma mergeAndRank_keys_comm_witness :
  keySet TrimSpaceASCII ToLowerASCII
    (mergeAndRank TrimSpaceASCII ToLowerASCII
       [mkTopic "yahoo" "B" "" 1; mkTopic "yahoo" "a" "" 2]
       [mkTopic "google" "A" "" 1; mkTopic "google" "b" "" 2] 2)
  = keySet TrimSpaceASCII ToLowerASCII
      (mergeAndRank TrimSpaceASCII ToLowerASCII
         [mkTopic "google" "A" "" 1; mkTopic "google" "b" "" 2]
         [mkTopic "yahoo" "B" "" 1; mkTopic "yahoo" "a" "" 2] 2).
Proof.
  apply (mergeAndRank_keys_comm TrimSpaceASCII ToLowerASCII).
  right. vm_compute. discriminate.
Defined.

(** C5, as stated, fails: with the cap 1 and two topics that tie on the
    best rank 1, the entry that survives is the one whose displayed title
    sorts first, and the displayed title is the one seen first. *)
Lemma mergeAndRank_keys_not_comm :
  (λ o, mergeKey TrimSpaceASCII ToLowerASCII (Title o)) <$>
    mergeAndRank TrimSpaceASCII ToLowerASCII
      [mkTopic "yahoo" "B" "" 1; mkTopic "yahoo" "a" "" 2]
      [mkTopic "google" "A" "" 1; mkTopic "google" "b" "" 2] 1
  = ["b"] ∧
  (λ o, mergeKey TrimSpaceASCII ToLowerASCII (Title o)) <$>
    mergeAndRank TrimSpaceASCII ToLowerASCII
      [mkTopic "google" "A" "" 1; mkTopic "google" "b" "" 2]
      [mkTopic "yahoo" "B" "" 1; mkTopic "yahoo" "a" "" 2] 1
  = ["a"] ∧
  keySet TrimSpaceASCII ToLowerASCII
    (mergeAndRank TrimSpaceASCII ToLowerASCII
       [mkTopic "yahoo" "B" "" 1; mkTopic "yahoo" "a" "" 2]
       [mkTopic "google" "A" "" 1; mkTopic "google" "b" "" 2] 1)
  ≠ keySet TrimSpaceASCII ToLowerASCII
      (mergeAndRank TrimSpaceASCII ToLowerASCII
         [mkTopic "google" "A" "" 1; mkTopic "google" "b" "" 2]
         [mkTopic "yahoo" "B" "" 1; mkTopic "yahoo" "a" "" 2] 1).
Proof.
  split; [by vm_compute|]. split; [by vm_compute|].
  unfold keySet.
  replace (mergeAndRank TrimSpaceASCII ToLowerASCII
             [mkTopic "yahoo" "B" "" 1; mkTopic "yahoo" "a" "" 2]
             [mkTopic "google" "A" "" 1; mkTopic "google" "b" "" 2] 1)
    with [mkTopic "mix" "B" "" 1] by by vm_compute.
  replace (mergeAndRank TrimSpaceASCII ToLowerASCII
             [mkTopic "google" "A" "" 1; mkTopic "google" "b" "" 2]
             [mkTopic "yahoo" "B" "" 1; mkTopic "yahoo" "a" "" 2] 1)
    with [mkTopic "mix" "A" "" 1] by by vm_compute.
  intros Heq.
  apply (f_equal (λ s : gset string, bool_decide ("b" ∈ s))) in Heq.
  vm_compute in Heq. discriminate.
Qed.

(** C9: every run of [mergeAndRank], whatever order the map is ranged
    over and whatever sort meets the contract of [sort.Slice], returns the
    list the insertion-sort run returns; distinct keys of the map store
    distinct titles, so of two distinct emitted entries exactly one is
    [less] than the other. *)
Theorem mergeAndRank_deterministic (TrimSpace ToLower : string → string)
    (yahoo google : list Topic) (topN : Z) :
  mergeAndRank_run TrimSpace ToLower yahoo google topN
    (mergeAndRank TrimSpace ToLower yahoo google topN) ∧
  (∀ out, mergeAndRank_run TrimSpace ToLower yahoo google topN out →
          out = mergeAndRank TrimSpace ToLower yahoo google topN) ∧
  NoDup (Title <$> (emit <$>
    (map_to_list (accumulateWith TrimSpace ToLower 3 2 yahoo google)).*2)) ∧
  (∀ a b,
     a ∈ emit <$> (map_to_list (accumulateWith TrimSpace ToLower 3 2 yahoo google)).*2 →
     b ∈ emit <$> (map_to_list (accumulateWith TrimSpace ToLower 3 2 yahoo google)).*2 →
     a ≠ b → less a b = negb (less b a)).
Proof.
  assert (NoDup (Title <$> (emit <$>
    (map_to_list (accumulateWith TrimSpace ToLower 3 2 yahoo google)).*2)))
    as Hnd by (rewrite accumulateWith_app; apply emitted_titles_NoDup).
  split; [|split; [|split]].
  - eexists _, _. split; [done|]. split; [|done].
    apply (sort_Slice_meets_spec less less_asym).
  - intros out (visited & sorted & Hv & [Hperm Hsorted] & ->).
    unfold mergeAndRank, mergeAndRankWith. simpl. f_equal.
    eapply sort_Slice_spec_unique; [exact Hnd| |].
    + split; [|done]. by rewrite Hperm, Hv.
    + apply (sort_Slice_meets_spec less less_asym).
  - done.
  - intros a b Ha Hb Hab.
    destruct (less a b) eqn:Hless.
    + by rewrite (less_asym a b).
    + destruct (less b a) eqn:Hless'; [done|]. destruct Hab.
      eapply (NoDup_fmap_eq Title); [exact Hnd|done..|].
      by apply less_total.
Qed.

Lemma mergeAndRank_deterministic_witness :
  [mkTopic "mix" "A" "" 1; mkTopic "mix" "B" "" 2]
  = mergeAndRank TrimSpaceASCII ToLowerASCII
      [mkTopic "yahoo" "A" "" 3]
      [mkTopic "google" "A" "" 1; mkTopic "google" "B" "" 2] 0.
Proof.
  apply (proj1 (proj2 (mergeAndRank_deterministic TrimSpaceASCII ToLowerASCII
                         [mkTopic "yahoo" "A" "" 3]
                         [mkTopic "google" "A" "" 1; mkTopic "google" "B" "" 2]
                         0))).
  exists (reverse (map_to_list
            (accumulateWith TrimSpaceASCII ToLowerASCII 3 2
               [mkTopic "yahoo" "A" "" 3]
               [mkTopic "google" "A" "" 1; mkTopic "google" "B" "" 2])).*2),
    [mkTopic "mix" "A" "" 1; mkTopic "mix" "B" "" 2].
  split; [apply reverse_Permutation|]. split; [|reflexivity]. split.
  - vm_compute. first [reflexivity | apply Permutation_swap].
  - repeat constructor.
Defined.

(** ** Loops that skip entries and number all of them *)

Lemma survivors_lookup {A : Type} (P : A → Prop) `{∀ x, Decision (P x)}
    (l : list A) (i0 p i : nat) (x : A) :
  survivors P i0 l !! p = Some (i, x) ↔
  ∃ j, i = (i0 + j)%nat ∧ l !! j = Some x ∧ P x ∧
       length (filter P (take j l)) = p.
Proof.
  revert i0 p. induction l as [|x0 l IH]; intros i0 p; simpl.
  { split; [done|]. by intros (j & _ & Hj & _). }
  destruct (decide (P x0)) as [HP|HP].
  - destruct p as [|p]; simpl.
    + split.
      * intros [= <- <-]. exists 0%nat. split; [lia|done].
      * intros ([|j] & -> & Hj & _ & Hlen); simpl in *.
        -- injection Hj as <-. do 2 f_equal. lia.
        -- by rewrite filter_cons_True in Hlen.
    + rewrite IH. split.
      * intros (j & -> & Hj & Hx & Hlen). exists (S j).
        split; [lia|]. split; [done|]. split; [done|].
        simpl. rewrite filter_cons_True by done. simpl. by rewrite Hlen.
      * intros ([|j] & -> & Hj & Hx & Hlen); simpl in *; [done|].
        rewrite filter_cons_True in Hlen by done. simpl in Hlen.
        exists j. split; [lia|]. split; [done|]. split; [done|lia].
  - rewrite IH. split.
    + intros (j & -> & Hj & Hx & Hlen). exists (S j).
      split; [lia|]. split; [done|]. split; [done|].
      simpl. by rewrite filter_cons_False.
    + intros ([|j] & -> & Hj & Hx & Hlen); simpl in *.
      * injection Hj as <-. done.
      * rewrite filter_cons_False in Hlen by done.
        exists j. split; [lia|done].
Qed.

Lemma cap_not_full {A : Type} (max : Z) (l : list A) :
  ¬ (0 < max ∧ max ≤ Z.of_nat (length l)) → cap max l = l.
Proof.
  unfold cap. intros Hmax. destruct (Z.ltb_spec 0 max); [|done].
  apply take_ge. lia.
Qed.

Lemma cap_just_full {A : Type} (max : Z) (l k : list A) (x : A) :
  ¬ (0 < max ∧ max ≤ Z.of_nat (length l)) →
  (0 <? max) && (max <=? Z.of_nat (length (l ++ [x]))) = true →
  cap max (l ++ x :: k) = l ++ [x].
Proof.
  unfold cap. intros Hl [Hmax Hlx%Z.leb_le]%andb_true_iff. rewrite Hmax.
  apply Z.ltb_lt in Hmax. rewrite length_app in Hlx. simpl in Hlx.
  rewrite cons_middle, app_assoc. apply take_app_length'.
  rewrite length_app. simpl. lia.
Qed.

Lemma cap_lookup {A : Type} (max : Z) (l : list A) (p : nat) (x : A) :
  cap max l !! p = Some x ↔ (0 < max → Z.of_nat p < max) ∧ l !! p = Some x.
Proof.
  unfold cap. destruct (Z.ltb_spec 0 max).
  - rewrite lookup_take_Some. split.
    + intros [? ?]. split; [lia|done].
    + intros [Hp ?]. split; [done|]. specialize (Hp ltac:(done)). lia.
  - split; [|by intros [_ ?]]. intros ?. split; [lia|done].
Qed.

Lemma cap_length {A : Type} (max : Z) (l : list A) :
  length (cap max l)
  = if 0 <? max then Nat.min (Z.to_nat max) (length l) else length l.
Proof. unfold cap. destruct (0 <? max); [apply length_take|done]. Qed.

Lemma cap_sublist {A : Type} (max : Z) (l : list A) : cap max l `sublist_of` l.
Proof. unfold cap. destruct (0 <? max); [apply sublist_take|done]. Qed.

(** ** The feed adapter *)

Section GoogleFacts.
Context (TrimSpace : string → string).
Context (reTraffic_FindString : string → string).
Context (xml_Decode : string → string + RSS).
Context (httpClient_Do : Request → DoResult).

Local Abbreviation collect := (collectItems TrimSpace reTraffic_FindString).
Local Abbreviation topicOf := (itemTopic TrimSpace reTraffic_FindString).

Lemma collectItems_survivors (max : Z) (items : list Item) (i : nat)
    (topics : list Topic) :
  ¬ (0 < max ∧ max ≤ Z.of_nat (length topics)) →
  collect max i items topics
  = cap max (topics ++
             (uncurry topicOf <$> survivors (titled TrimSpace) i items)).
Proof.
  revert i topics. induction items as [|it rest IH]; intros i topics Hroom.
  { simpl. by rewrite app_nil_r, cap_not_full. }
  simpl. destruct (decide (titled TrimSpace it)) as [Hne|He].
  2:{ rewrite (decide_True (P:=TrimSpace (Item_Title it) = ""))
        by (unfold titled in He; by destruct (decide (TrimSpace (Item_Title it) = ""))).
      by apply IH. }
  rewrite (decide_False (P:=TrimSpace (Item_Title it) = "")) by done. simpl.
  replace (if decide (reTraffic_FindString (Item_Description it) = "")
           then "" else reTraffic_FindString (Item_Description it))
    with (reTraffic_FindString (Item_Description it))
    by (by case_decide).
  change (mkTopic "google" (TrimSpace (Item_Title it))
            (reTraffic_FindString (Item_Description it)) (Z.of_nat i + 1))
    with (topicOf i it).
  destruct ((0 <? max) && (max <=? Z.of_nat (length (topics ++ [topicOf i it]))))
    eqn:Hfull.
  - symmetry. by apply cap_just_full.
  - rewrite IH.
    + by rewrite <-app_assoc.
    + intros [Hmax Hlen]. apply andb_false_iff in Hfull as [?%Z.ltb_ge|?%Z.leb_gt]; lia.
Qed.

Lemma collectItems_lookup (max : Z) (items : list Item) (p : nat) (t : Topic) :
  collect max 0 items [] !! p = Some t ↔
  (0 < max → Z.of_nat p < max) ∧
  ∃ i it, items !! i = Some it ∧ titled TrimSpace it ∧ t = topicOf i it ∧
          length (filter (titled TrimSpace) (take i items)) = p.
Proof.
  rewrite collectItems_survivors by (simpl; lia). simpl.
  rewrite cap_lookup, list_lookup_fmap_Some.
  split; intros [Hp Ht]; (split; [done|]).
  - destruct Ht as ([i it] & -> & (j & -> & ? & ? & ?)%survivors_lookup).
    by exists j, it.
  - destruct Ht as (i & it & ? & ? & -> & ?). exists (i, it).
    split; [done|]. apply survivors_lookup. by exists i.
Qed.
Local Abbreviation won := (succeeds TrimSpace reTraffic_FindString xml_Decode httpClient_Do).
Local Abbreviation lost := (fails TrimSpace reTraffic_FindString xml_Decode httpClient_Do).
Local Abbreviation try := (tryURLs TrimSpace reTraffic_FindString xml_Decode httpClient_Do).

Lemma nonempty_length (topics : list Topic) :
  (0 <? Z.of_nat (length topics)) = true ↔ topics ≠ [].
Proof. destruct topics; simpl; [done|]. split; [done|]. intros _. by apply Z.ltb_lt; lia. Qed.

Lemma succeeds_or_fails (max : Z) (url : string) :
  (∃ topics, won max url topics) ∨ (∃ reason, lost max url reason).
Proof.
  unfold succeeds, fails.
  destruct (get httpClient_Do url) as [err|resp] eqn:Hget.
  { right. exists (google_request err). left. by exists err. }
  destruct (Contains (ContentType resp) "xml") eqn:Hct.
  2:{ right. eexists. right. left. by exists resp. }
  destruct (xml_Decode (Body resp)) as [err|rss] eqn:Hdec.
  { right. eexists. right. right. left. by exists resp, err. }
  destruct (collect max 0 (Channel_Items (RSS_Channel rss)) []) as [|t ts] eqn:Hts.
  - right. eexists. right. right. right. by exists resp, rss.
  - left. exists (t :: ts), resp, rss. by rewrite Hts.
Qed.

Lemma succeeds_not_fails (max : Z) (url : string) (topics : list Topic)
    (reason : error) :
  won max url topics → lost max url reason → False.
Proof.
  intros (resp & rss & Hget & Hct & Hdec & -> & Hne).
  intros [(? & ? & _)|[(? & ? & ? & _)|[(? & ? & ? & ? & ? & _)|
          (? & ? & ? & ? & ? & ? & _)]]]; simplify_eq; congruence.
Qed.

Lemma tryURLs_success (max : Z) (url : string) (rest : list string)
    (lastErr : option error) (log : list string) (topics : list Topic) :
  won max url topics →
  try max (url :: rest) lastErr log = mkFetched topics None (log ++ [url]).
Proof.
  intros (resp & rss & Hget & Hct & Hdec & -> & Hne). simpl.
  rewrite Hget, Hct, Hdec. simpl.
  by rewrite (proj2 (nonempty_length _) Hne).
Qed.

Lemma tryURLs_failure (max : Z) (url : string) (rest : list string)
    (lastErr : option error) (log : list string) (reason : error) :
  lost max url reason →
  try max (url :: rest) lastErr log = try max rest (Some reason) (log ++ [url]).
Proof.
  simpl.
  intros [(err & -> & ->)|[(resp & -> & -> & ->)|[(resp & err & -> & -> & -> & ->)|
          (resp & rss & -> & -> & -> & Hts & ->)]]]; simpl; try done.
  by rewrite Hts.
Qed.
Local Abbreviation fetch := (fetchGoogleTrends TrimSpace reTraffic_FindString xml_Decode httpClient_Do).

Lemma fetch_primary (geo : string) (max : Z) (topics : list Topic) :
  won max (primaryURL geo) topics →
  fetch geo max = mkFetched topics None [primaryURL geo].
Proof.
  intros Hok. unfold fetchGoogleTrends, urls.
  by rewrite (tryURLs_success _ _ _ _ _ topics).
Qed.

Lemma fetch_secondary (geo : string) (max : Z) (reason : error)
    (topics : list Topic) :
  lost max (primaryURL geo) reason → won max (secondaryURL geo) topics →
  fetch geo max = mkFetched topics None [primaryURL geo; secondaryURL geo].
Proof.
  intros Hko Hok. unfold fetchGoogleTrends, urls.
  rewrite (tryURLs_failure _ _ _ _ _ reason) by done.
  by rewrite (tryURLs_success _ _ _ _ _ topics).
Qed.

Lemma fetch_none (geo : string) (max : Z) (reason1 reason2 : error) :
  lost max (primaryURL geo) reason1 → lost max (secondaryURL geo) reason2 →
  fetch geo max
  = mkFetched [] (Some reason2) [primaryURL geo; secondaryURL geo].
Proof.
  intros Hko1 Hko2. unfold fetchGoogleTrends, urls.
  rewrite (tryURLs_failure _ _ _ _ _ reason1) by done.
  by rewrite (tryURLs_failure _ _ _ _ _ reason2).
Qed.

(** Whatever is returned was collected from the feed of a URL that
    succeeded. *)
Lemma fetch_topics_source (geo : string) (max : Z) (t : Topic) :
  t ∈ topics_of (fetch geo max) →
  ∃ url, url ∈ urls geo ∧ won max url (topics_of (fetch geo max)).
Proof.
  destruct (succeeds_or_fails max (primaryURL geo)) as [[ts1 Hok1]|[e1 Hko1]].
  { rewrite (fetch_primary _ _ _ Hok1). simpl. intros _.
    exists (primaryURL geo). split; [by left|done]. }
  destruct (succeeds_or_fails max (secondaryURL geo)) as [[ts2 Hok2]|[e2 Hko2]].
  { rewrite (fetch_secondary _ _ _ _ Hko1 Hok2). simpl. intros _.
    exists (secondaryURL geo). split; [by right; left|done]. }
  rewrite (fetch_none _ _ _ _ Hko1 Hko2). simpl. by intros ?%elem_of_nil.
Qed.
End GoogleFacts.

(** C6: [fetchGoogleTrends] requests the primary URL, and the secondary
    URL only when the primary fails; it returns the topics of the first
    URL that succeeds, with a nil error; when both fail, and only then, it
    returns a non-nil error, which is the reason the secondary URL failed,
    with an empty list. *)
Theorem fetchGoogleTrends_fallback (TrimSpace : string → string)
    (reTraffic_FindString : string → string)
    (xml_Decode : string → string + RSS)
    (httpClient_Do : Request → DoResult) (geo : string) (max : Z) :
  (∀ topics,
     succeeds TrimSpace reTraffic_FindString xml_Decode httpClient_Do
       max (primaryURL geo) topics →
     fetchGoogleTrends TrimSpace reTraffic_FindString xml_Decode httpClient_Do
       geo max = mkFetched topics None [primaryURL geo]) ∧
  (∀ reason topics,
     fails TrimSpace reTraffic_FindString xml_Decode httpClient_Do
       max (primaryURL geo) reason →
     succeeds TrimSpace reTraffic_FindString xml_Decode httpClient_Do
       max (secondaryURL geo) topics →
     fetchGoogleTrends TrimSpace reTraffic_FindString xml_Decode httpClient_Do
       geo max = mkFetched topics None [primaryURL geo; secondaryURL geo]) ∧
  (∀ reason1 reason2,
     fails TrimSpace reTraffic_FindString xml_Decode httpClient_Do
       max (primaryURL geo) reason1 →
     fails TrimSpace reTraffic_FindString xml_Decode httpClient_Do
       max (secondaryURL geo) reason2 →
     fetchGoogleTrends TrimSpace reTraffic_FindString xml_Decode httpClient_Do
       geo max = mkFetched [] (Some reason2) [primaryURL geo; secondaryURL geo]) ∧
  (err_of (fetchGoogleTrends TrimSpace reTraffic_FindString xml_Decode
             httpClient_Do geo max) ≠ None ↔
   (∃ reason1, fails TrimSpace reTraffic_FindString xml_Decode httpClient_Do
                 max (primaryURL geo) reason1) ∧
   (∃ reason2, fails TrimSpace reTraffic_FindString xml_Decode httpClient_Do
                 max (secondaryURL geo) reason2)) ∧
  (err_of (fetchGoogleTrends TrimSpace reTraffic_FindString xml_Decode
             httpClient_Do geo max) ≠ None →
   topics_of (fetchGoogleTrends TrimSpace reTraffic_FindString xml_Decode
                httpClient_Do geo max) = []).
Proof.
  split; [apply fetch_primary|]. split; [apply fetch_secondary|].
  split; [apply fetch_none|].
  destruct (succeeds_or_fails TrimSpace reTraffic_FindString xml_Decode
              httpClient_Do max (primaryURL geo)) as [[ts1 Hok1]|[e1 Hko1]].
  { rewrite (fetch_primary _ _ _ _ _ _ _ Hok1). simpl. split; [|done].
    split; [done|]. intros [[e1 Hko1] _].
    destruct (succeeds_not_fails _ _ _ _ _ _ _ _ Hok1 Hko1). }
  destruct (succeeds_or_fails TrimSpace reTraffic_FindString xml_Decode
              httpClient_Do max (secondaryURL geo)) as [[ts2 Hok2]|[e2 Hko2]].
  { rewrite (fetch_secondary _ _ _ _ _ _ _ _ Hko1 Hok2). simpl. split; [|done].
    split; [done|]. intros [_ [e2 Hko2]].
    destruct (succeeds_not_fails _ _ _ _ _ _ _ _ Hok2 Hko2). }
  rewrite (fetch_none _ _ _ _ _ _ _ _ Hko1 Hko2). simpl. split; [|done].
  split; [|done]. intros _. split; eauto.
Qed.

Lemma fetchGoogleTrends_fallback_witness :
  fetchGoogleTrends TrimSpaceASCII noMatch demoDecode fallbackNet "JP" 3
  = mkFetched [mkTopic "google" "alpha" "" 1; mkTopic "google" "beta" "" 2;
               mkTopic "google" "gamma" "" 3]
      None [primaryURL "JP"; secondaryURL "JP"].
Proof.
  apply (proj1 (proj2 (fetchGoogleTrends_fallback TrimSpaceASCII noMatch
                         demoDecode fallbackNet "JP" 3))
           (google_non_XML "text/html" "<html>")).
  - right. left. eexists. split; [reflexivity|]. split; reflexivity.
  - eexists _, _. split; [reflexivity|]. split; [reflexivity|].
    split; [reflexivity|]. split; [reflexivity|discriminate].
Defined.

(** C10: the topics [fetchGoogleTrends] returns carry as rank 1 plus the
    index of their item among all the items of the feed, skipped ones
    included, while their position in the returned list, and the cap,
    count the items with a non-blank title only; after a blank-title item
    the ranks returned are 2, 3 and not 1, 2. *)
Theorem fetchGoogleTrends_ranks :
  (∀ (TrimSpace reTraffic_FindString : string → string) (max : Z)
     (items : list Item) (p : nat) (t : Topic),
     collectItems TrimSpace reTraffic_FindString max 0 items [] !! p = Some t ↔
     (0 < max → Z.of_nat p < max) ∧
     ∃ i it, items !! i = Some it ∧ titled TrimSpace it ∧
             t = itemTopic TrimSpace reTraffic_FindString i it ∧
             length (filter (titled TrimSpace) (take i items)) = p) ∧
  (∀ (TrimSpace reTraffic_FindString : string → string)
     (xml_Decode : string → string + RSS)
     (httpClient_Do : Request → DoResult) (geo : string) (max : Z) (t : Topic),
     t ∈ topics_of (fetchGoogleTrends TrimSpace reTraffic_FindString
                      xml_Decode httpClient_Do geo max) →
     ∃ url resp rss i it,
       url ∈ urls geo ∧
       get httpClient_Do url = DoResponse resp ∧
       xml_Decode (Body resp) = inr rss ∧
       Channel_Items (RSS_Channel rss) !! i = Some it ∧
       Rank t = Z.of_nat i + 1 ∧
       Title t = TrimSpace (Item_Title it)) ∧
  topics_of (fetchGoogleTrends TrimSpaceASCII noMatch demoDecode
               blankFirstNet "JP" 2)
  = [mkTopic "google" "alpha" "" 2; mkTopic "google" "beta" "" 3].
Proof.
  split; [|split; [|by vm_compute]].
  - intros. apply collectItems_lookup.
  - intros TrimSpace FindString xml_Decode httpClient_Do geo max t Ht.
    pose proof Ht as Hsrc.
    apply fetch_topics_source in Hsrc
      as (url & Hurl & resp & rss & Hget & _ & Hdec & Hts & _).
    rewrite Hts in Ht. apply list_elem_of_lookup_1 in Ht as [p Hp].
    apply collectItems_lookup in Hp as (_ & i & it & Hi & _ & -> & _).
    by exists url, resp, rss, i, it.
Qed.

Lemma fetchGoogleTrends_ranks_witness :
  ∃ url resp rss i it,
    url ∈ urls "JP" ∧
    get blankFirstNet url = DoResponse resp ∧
    demoDecode (Body resp) = inr rss ∧
    Channel_Items (RSS_Channel rss) !! i = Some it ∧
    Rank (mkTopic "google" "beta" "" 3) = Z.of_nat i + 1 ∧
    Title (mkTopic "google" "beta" "" 3) = TrimSpaceASCII (Item_Title it).
Proof.
  apply (proj1 (proj2 fetchGoogleTrends_ranks) TrimSpaceASCII noMatch
           demoDecode blankFirstNet "JP" 2).
  vm_compute. right. left.
Defined.

Lemma filter_all {A : Type} (P : A → Prop) `{∀ x, Decision (P x)} (l : list A) :
  (∀ x, P x) → filter P l = l.
Proof.
  intros HP. induction l as [|x l IH]; [done|].
  by rewrite filter_cons_True, IH.
Qed.

(** ** The listing-page adapter *)

Section YahooFacts.
Context (TrimSpace ToLower : string → string).

Local Abbreviation keyOf := (dedupeKey TrimSpace ToLower).
Local Abbreviation firsts := (firstOccurrences TrimSpace ToLower).
Local Abbreviation walk := (visit TrimSpace).

Lemma visit_trendLink (i : nat) (a : Anchor) (topics : list Topic) :
  walk i a topics
  = if decide (trendLink TrimSpace a)
    then topics ++ [anchorTopic TrimSpace i a] else topics.
Proof.
  unfold visit, trendLink.
  destruct (decide (TrimSpace (text a) = "")) as [He|Hne].
  - rewrite bool_decide_eq_true_2 by done. simpl.
    by rewrite decide_False by (by intros [? _]).
  - rewrite bool_decide_eq_false_2 by done. simpl.
    destruct (Contains (href a) "/realtime/search"); simpl.
    + by rewrite decide_True.
    + by rewrite decide_False by (by intros [_ ?]).
Qed.

Lemma Each_visit (selection : list Anchor) (i : nat) (topics : list Topic) :
  Each i selection walk topics
  = topics ++ (uncurry (anchorTopic TrimSpace) <$>
               survivors (trendLink TrimSpace) i selection).
Proof.
  revert i topics. induction selection as [|a rest IH]; intros i topics; simpl.
  { by rewrite app_nil_r. }
  rewrite IH, visit_trendLink.
  destruct (decide (trendLink TrimSpace a)); [|done].
  by rewrite <-app_assoc.
Qed.

Lemma firstPass_lookup (selection : list Anchor) (p : nat) (t : Topic) :
  Each 0 selection walk [] !! p = Some t ↔
  ∃ i a, selection !! i = Some a ∧ trendLink TrimSpace a ∧
         t = anchorTopic TrimSpace i a ∧
         length (filter (trendLink TrimSpace) (take i selection)) = p.
Proof.
  rewrite Each_visit. simpl. rewrite list_lookup_fmap_Some. split.
  - intros ([i a] & -> & (j & -> & ? & ? & ?)%survivors_lookup).
    by exists j, a.
  - intros (i & a & ? & ? & -> & ?). exists (i, a).
    split; [done|]. apply survivors_lookup. by exists i.
Qed.

(** *** Deduplication *)

Lemma firstOccurrences_sublist (l : list Topic) : firsts l `sublist_of` l.
Proof.
  induction l as [|t r IH]; simpl; [done|].
  destruct (decide (keyOf t = "")).
  - by apply sublist_cons.
  - apply sublist_skip. etrans; [apply sublist_filter|done].
Qed.

Lemma firstOccurrences_key (l : list Topic) (k : string) :
  k ∈ keyOf <$> firsts l ↔ k ≠ "" ∧ k ∈ keyOf <$> l.
Proof.
  induction l as [|t r IH]; simpl.
  { split; [by intros ?%elem_of_nil|by intros [_ ?%elem_of_nil]]. }
  destruct (decide (keyOf t = "")) as [He|Hne].
  - rewrite IH, elem_of_cons. split; [intros [? ?]; auto|].
    intros [? [->|?]]; [done|auto].
  - rewrite fmap_cons, !elem_of_cons.
    assert (k ∈ keyOf <$> filter (λ u, keyOf u ≠ keyOf t) (firsts r) ↔
            k ≠ keyOf t ∧ k ∈ keyOf <$> firsts r) as ->.
    { rewrite !list_elem_of_fmap. split.
      - intros (u & -> & [? ?]%list_elem_of_filter). eauto.
      - intros [? (u & -> & ?)]. exists u. split; [done|].
        by apply list_elem_of_filter. }
    rewrite IH. destruct (decide (k = keyOf t)) as [->|]; split.
    + auto.
    + auto.
    + intros [?|[_ [? ?]]]; [done|auto].
    + intros [? [?|?]]; [done|auto].
Qed.

Lemma NoDup_fmap_filter {A B : Type} (f : A → B) (P : A → Prop)
    `{∀ x, Decision (P x)} (l : list A) :
  NoDup (f <$> l) → NoDup (f <$> filter P l).
Proof.
  induction l as [|x l IH]; simpl; [done|].
  rewrite NoDup_cons. intros [Hx Hl]. rewrite filter_cons.
  destruct (decide (P x)); [|by apply IH].
  simpl. apply NoDup_cons. split; [|by apply IH].
  intros (y & ? & [_ ?]%list_elem_of_filter)%list_elem_of_fmap.
  apply Hx, list_elem_of_fmap. eauto.
Qed.

Lemma firstOccurrences_NoDup (l : list Topic) : NoDup (keyOf <$> firsts l).
Proof.
  induction l as [|t r IH]; simpl; [constructor|].
  destruct (decide (keyOf t = "")); [done|].
  simpl. apply NoDup_cons. split; [|by apply NoDup_fmap_filter].
  intros (u & ? & [? _]%list_elem_of_filter)%list_elem_of_fmap. congruence.
Qed.

Lemma firstOccurrences_first (l : list Topic) (t : Topic) :
  t ∈ firsts l ↔ ∃ i, firstWithKey TrimSpace ToLower l i t.
Proof.
  unfold firstWithKey. induction l as [|t0 r IH]; simpl.
  { split; [by intros ?%elem_of_nil|by intros (i & ? & _)]. }
  destruct (decide (keyOf t0 = "")) as [He|Hne].
  - rewrite IH. split.
    + intros (i & Hi & Hk & Hfirst). exists (S i).
      split; [done|]. split; [done|].
      intros [|j] u Hj Hu; simpl in *.
      * injection Hu as <-. congruence.
      * apply (Hfirst j); [lia|done].
    + intros ([|i] & Hi & Hk & Hfirst); simpl in *.
      * injection Hi as <-. done.
      * exists i. split; [done|]. split; [done|].
        intros j u Hj Hu. apply (Hfirst (S j)); [lia|done].
  - rewrite elem_of_cons, list_elem_of_filter, IH. split.
    + intros [->|[Hk (i & Hi & Hk' & Hfirst)]].
      * exists 0%nat. split; [done|]. split; [done|]. intros j u Hj. lia.
      * exists (S i). split; [done|]. split; [done|].
        intros [|j] u Hj Hu; simpl in *.
        -- injection Hu as <-. congruence.
        -- apply (Hfirst j); [lia|done].
    + intros ([|i] & Hi & Hk & Hfirst); simpl in *.
      * injection Hi as <-. by left.
      * right. split.
        -- intros Heq. by apply (Hfirst 0%nat t0); [lia|done|].
        -- exists i. split; [done|]. split; [done|].
           intros j u Hj Hu. apply (Hfirst (S j)); [lia|done].
Qed.

Lemma firstOccurrences_length (l : list Topic) :
  length (firsts l) = size (distinctKeys TrimSpace ToLower l).
Proof.
  rewrite <-(length_fmap keyOf).
  rewrite <-(size_list_to_set (C:=gset string)) by apply firstOccurrences_NoDup.
  f_equal. unfold distinctKeys. apply set_eq. intros k.
  rewrite !elem_of_list_to_set, firstOccurrences_key.
  by rewrite list_elem_of_filter.
Qed.

Lemma dedupe_firstOccurrences (max : Z) (topics : list Topic)
    (seen : gmap string bool) (out : list Topic) :
  ¬ (0 < max ∧ max ≤ Z.of_nat (length out)) →
  dedupe TrimSpace ToLower max topics seen out
  = cap max (out ++ filter (λ u, default false (seen !! keyOf u) = false)
                      (firsts topics)).
Proof.
  revert seen out. induction topics as [|t rest IH]; intros seen out Hroom.
  { simpl. by rewrite app_nil_r, cap_not_full. }
  simpl. fold (keyOf t).
  destruct (decide (keyOf t = "")) as [He|Hne].
  { rewrite bool_decide_eq_true_2 by done. simpl. by apply IH. }
  rewrite bool_decide_eq_false_2 by done. simpl.
  destruct (default false (seen !! keyOf t)) eqn:Hseen.
  - rewrite IH by done. rewrite filter_cons_False by (by rewrite Hseen).
    rewrite list_filter_filter. do 2 f_equal. apply list_filter_iff.
    intros u. split; [|by intros [? _]]. intros Hu. split; [done|].
    intros Heq. rewrite Heq in Hu. congruence.
  - rewrite filter_cons_True by done. rewrite list_filter_filter.
    assert (filter (λ u, default false (<[keyOf t:=true]> seen !! keyOf u) = false)
              (firsts rest)
            = filter (λ u, default false (seen !! keyOf u) = false
                           ∧ keyOf u ≠ keyOf t) (firsts rest)) as Hfilter.
    { apply list_filter_iff. intros u.
      destruct (decide (keyOf t = keyOf u)) as [Heq|Hneq].
      - rewrite <-Heq, lookup_insert_eq. simpl. split; [done|by intros [_ ?]].
      - rewrite lookup_insert_ne by done. split; [|by intros [? _]].
        intros ?. split; [done|congruence]. }
    destruct ((0 <? max) && (max <=? Z.of_nat (length (out ++ [t])))) eqn:Hfull.
    + symmetry. by apply cap_just_full.
    + rewrite IH.
      * by rewrite Hfilter, <-app_assoc.
      * intros [Hmax Hlen].
        apply andb_false_iff in Hfull as [?%Z.ltb_ge|?%Z.leb_gt]; lia.
Qed.

Lemma dedupe_cap (max : Z) (topics : list Topic) :
  dedupe TrimSpace ToLower max topics ∅ [] = cap max (firsts topics).
Proof.
  rewrite dedupe_firstOccurrences by (simpl; lia). simpl. f_equal.
  apply filter_all. intros u. by rewrite lookup_empty.
Qed.

Lemma dedupe_length (max : Z) (topics : list Topic) :
  length (dedupe TrimSpace ToLower max topics ∅ [])
  = if 0 <? max
    then Nat.min (Z.to_nat max) (size (distinctKeys TrimSpace ToLower topics))
    else size (distinctKeys TrimSpace ToLower topics).
Proof. by rewrite dedupe_cap, cap_length, firstOccurrences_length. Qed.

Section Fetch.
Context (Document : Type).
Context (NewDocumentFromReader : string → string + Document).
Context (Find : Document → string → list Anchor).
Context (httpClient_Do : Request → DoResult).

(** Whatever is returned was collected by the first pass over the page. *)
Lemma fetchYahooRealtime_source (max : Z) (t : Topic) :
  t ∈ (fetchYahooRealtime TrimSpace ToLower Document NewDocumentFromReader
         Find httpClient_Do max).1 →
  ∃ resp doc,
    get httpClient_Do "https://search.yahoo.co.jp/realtime/trend"
      = DoResponse resp ∧
    StatusCode resp = 200 ∧
    NewDocumentFromReader (Body resp) = inr doc ∧
    t ∈ Each 0 (Find doc "ol li a, ul li a") walk [].
Proof.
  unfold fetchYahooRealtime.
  destruct (get httpClient_Do _) as [err|resp]; simpl;
    [by intros ?%elem_of_nil|].
  destruct (Z.eqb_spec (StatusCode resp) 200) as [Hst|Hst]; simpl;
    [|by intros ?%elem_of_nil].
  destruct (NewDocumentFromReader (Body resp)) as [err|doc] eqn:Hdoc; simpl;
    [by intros ?%elem_of_nil|].
  case_match; simpl; [by intros ?%elem_of_nil|].
  intros Ht. exists resp, doc. do 3 (split; [done|]).
  rewrite dedupe_cap in Ht.
  eapply elem_of_sublist; [|apply firstOccurrences_sublist].
  eapply elem_of_sublist; [exact Ht|apply cap_sublist].
Qed.
End Fetch.
End YahooFacts.

(** C7: the topics kept by [fetchYahooRealtime] carry as rank 1 plus the
    index of their anchor among all the anchors the selector matches,
    discarded ones included, while their position among the kept topics
    counts the anchors that pass the filter only; on a page with
    navigation links at the indices 0 and 2 the ranks returned are 2 and
    4. *)
Theorem fetchYahooRealtime_ranks :
  (∀ (TrimSpace : string → string) (selection : list Anchor)
     (p : nat) (t : Topic),
     Each 0 selection (visit TrimSpace) [] !! p = Some t ↔
     ∃ i a, selection !! i = Some a ∧ trendLink TrimSpace a ∧
            t = anchorTopic TrimSpace i a ∧
            length (filter (trendLink TrimSpace) (take i selection)) = p) ∧
  (∀ (TrimSpace ToLower : string → string) (Document : Type)
     (NewDocumentFromReader : string → string + Document)
     (Find : Document → string → list Anchor)
     (httpClient_Do : Request → DoResult) (max : Z) (t : Topic),
     t ∈ (fetchYahooRealtime TrimSpace ToLower Document NewDocumentFromReader
            Find httpClient_Do max).1 →
     ∃ resp doc i a,
       get httpClient_Do "https://search.yahoo.co.jp/realtime/trend"
         = DoResponse resp ∧
       NewDocumentFromReader (Body resp) = inr doc ∧
       Find doc "ol li a, ul li a" !! i = Some a ∧
       trendLink TrimSpace a ∧
       Rank t = Z.of_nat i + 1 ∧
       Title t = TrimSpace (text a)) ∧
  fetchYahooRealtime TrimSpaceASCII ToLowerASCII (list Anchor) demoParse
    demoFind (pageNet "nav page") 10
  = ([mkTopic "yahoo" "Alpha" "" 2; mkTopic "yahoo" "Beta" "" 4], None).
Proof.
  split; [|split; [|by vm_compute]].
  - intros. apply firstPass_lookup.
  - intros TrimSpace ToLower Document NewDoc Find httpClient_Do max t Ht.
    apply fetchYahooRealtime_source in Ht as (resp & doc & Hget & _ & Hdoc & Ht).
    apply list_elem_of_lookup_1 in Ht as [p Hp].
    apply firstPass_lookup in Hp as (i & a & Hi & Ha & -> & _).
    by exists resp, doc, i, a.
Qed.

Lemma fetchYahooRealtime_ranks_witness :
  ∃ resp doc i a,
    get (pageNet "nav page") "https://search.yahoo.co.jp/realtime/trend"
      = DoResponse resp ∧
    demoParse (Body resp) = inr doc ∧
    demoFind doc "ol li a, ul li a" !! i = Some a ∧
    trendLink TrimSpaceASCII a ∧
    Rank (mkTopic "yahoo" "Beta" "" 4) = Z.of_nat i + 1 ∧
    Title (mkTopic "yahoo" "Beta" "" 4) = TrimSpaceASCII (text a).
Proof.
  apply (proj1 (proj2 fetchYahooRealtime_ranks) TrimSpaceASCII ToLowerASCII
           (list Anchor) demoParse demoFind (pageNet "nav page") 10).
  vm_compute. right. left.
Defined.

(** C8: the second pass of [fetchYahooRealtime] returns the first topic
    of each non-empty key (the case-folded, trimmed title), in the order
    and with the ranks of the first pass, cut to the first [max] of them
    when [max] is positive; of ten topics with eight distinct keys and
    [max = 5] it returns min(5, 8) = 5. *)
Theorem fetchYahooRealtime_dedupe :
  (∀ (TrimSpace ToLower : string → string) (max : Z) (topics : list Topic),
     dedupe TrimSpace ToLower max topics ∅ []
     = cap max (firstOccurrences TrimSpace ToLower topics)) ∧
  (∀ (TrimSpace ToLower : string → string) (topics : list Topic),
     firstOccurrences TrimSpace ToLower topics `sublist_of` topics ∧
     NoDup (dedupeKey TrimSpace ToLower <$>
              firstOccurrences TrimSpace ToLower topics) ∧
     ∀ t, t ∈ firstOccurrences TrimSpace ToLower topics ↔
          ∃ i, firstWithKey TrimSpace ToLower topics i t) ∧
  (∀ (TrimSpace ToLower : string → string) (max : Z) (topics : list Topic),
     length (dedupe TrimSpace ToLower max topics ∅ [])
     = if 0 <? max
       then Nat.min (Z.to_nat max)
              (size (distinctKeys TrimSpace ToLower topics))
       else size (distinctKeys TrimSpace ToLower topics)) ∧
  (∀ (TrimSpace ToLower : string → string) (topics : list Topic),
     length topics = 10%nat →
     size (distinctKeys TrimSpace ToLower topics) = 8%nat →
     length (dedupe TrimSpace ToLower 5 topics ∅ []) = Nat.min 5 8) ∧
  fetchYahooRealtime TrimSpaceASCII ToLowerASCII (list Anchor) demoParse
    demoFind (pageNet "ten links") 5
  = ([mkTopic "yahoo" "one" "" 1; mkTopic "yahoo" "two" "" 2;
      mkTopic "yahoo" "three" "" 4; mkTopic "yahoo" "four" "" 5;
      mkTopic "yahoo" "five" "" 7], None).
Proof.
  split; [intros; apply dedupe_cap|].
  split; [intros; split; [apply firstOccurrences_sublist|];
          split; [apply firstOccurrences_NoDup|];
          intros; apply firstOccurrences_first|].
  split; [intros; apply dedupe_length|].
  split; [|by vm_compute].
  intros TrimSpace ToLower topics _ Hsize.
  by rewrite dedupe_length, Hsize.
Qed.

Lemma fetchYahooRealtime_dedupe_witness :
  length (dedupe TrimSpaceASCII ToLowerASCII 5
            (Each 0 tenLinks (visit TrimSpaceASCII) []) ∅ [])
  = Nat.min 5 8.
Proof.
  apply (proj1 (proj2 (proj2 (proj2 fetchYahooRealtime_dedupe)))
           TrimSpaceASCII ToLowerASCII).
  - reflexivity.
  - by vm_compute.
Defined.

(** ** Scenarios of the specification *)

Example merge_case_and_space :
  mergeAndRank TrimSpaceASCII ToLowerASCII
    [mkTopic "yahoo" "Foo " "" 1] [mkTopic "google" "foo" "500+ searches" 1] 10
  = [mkTopic "mix" "Foo " "500+ searches" 1].
Proof. by vm_compute. Qed.

Example merge_truncation :
  mergeAndRank TrimSpaceASCII ToLowerASCII
    [mkTopic "yahoo" "c" "" 3; mkTopic "yahoo" "a" "" 1]
    [mkTopic "google" "b" "" 2] 2
  = [mkTopic "mix" "a" "" 1; mkTopic "mix" "b" "" 2].
Proof. by vm_compute. Qed.

Example merge_empty : mergeAndRank TrimSpaceASCII ToLowerASCII [] [] 10 = [].
Proof. by vm_compute. Qed.

Example fetchGoogleTrends_offline :
  fetchGoogleTrends TrimSpaceASCII noMatch demoDecode offline "JP" 10
  = mkFetched [] (Some (google_request "offline"))
      [primaryURL "JP"; secondaryURL "JP"].
Proof. by vm_compute. Qed.

Example fetchYahooRealtime_offline :
  fetchYahooRealtime TrimSpaceASCII ToLowerASCII (list Anchor) demoParse
    demoFind offline 10
  = ([], Some (yahoo_request "offline")).
Proof. by vm_compute. Qed.

(** * Further properties *)

(** ** What an accumulator holds *)

Lemma int_add_wrap (a b : Z) : int_add (int_add 0 a) b = int_add 0 (a + b).
Proof.
  unfold int_add. f_equal.
  replace (0 + a + 2 ^ 63) with (a + 2 ^ 63) by lia.
  replace ((a + 2 ^ 63) mod 2 ^ 64 - 2 ^ 63 + b + 2 ^ 63)
    with ((a + 2 ^ 63) mod 2 ^ 64 + b) by lia.
  rewrite Z.add_mod_idemp_l by lia. f_equal. lia.
Qed.

Lemma int_add_small (a : Z) :
  - 2 ^ 63 ≤ a < 2 ^ 63 → int_add 0 a = a.
Proof.
  intros Ha. unfold int_add. rewrite Z.mod_small; lia.
Qed.

Lemma firstWithKey_app (TrimSpace ToLower : string → string)
    (l l' : list Topic) (i : nat) (t : Topic) :
  firstWithKey TrimSpace ToLower l i t →
  firstWithKey TrimSpace ToLower (l ++ l') i t.
Proof.
  intros (Hi & Hk & Hfirst). pose proof (lookup_lt_Some _ _ _ Hi) as Hlt.
  split; [by rewrite lookup_app_l|]. split; [done|].
  intros j u Hj. rewrite lookup_app_l by lia. by apply Hfirst.
Qed.

Section AccContents.
Context (TrimSpace ToLower : string → string).

Local Abbreviation keyOf t := (mergeKey TrimSpace ToLower (Title t)).
Local Abbreviation addW := (addWith TrimSpace ToLower).
Local Abbreviation groupOf := (group TrimSpace ToLower).

Lemma group_snoc (k : string) (l : list Topic) (t : Topic) :
  groupOf k (l ++ [t])
  = groupOf k l ++ (if decide (keyOf t = k) then [t] else []).
Proof. unfold group. by rewrite filter_app, (filter_singleton _ _ []). Qed.

Lemma group_absent (wy wo : Z) (l : list Topic) (k : string) :
  k ≠ "" → foldl (addW wy wo) ∅ l !! k = None → groupOf k l = [].
Proof.
  intros Hk Hnone. apply elem_of_nil_inv. intros t [Hkey Ht]%list_elem_of_filter.
  apply eq_None_not_Some in Hnone. apply Hnone, acc_dom.
  split; [done|]. by exists t.
Qed.

Lemma updated_Note (wy wo : Z) (v : Acc) (t : Topic) :
  Acc_Note (updated wy wo v t)
  = Acc_Note v ++ (if decide (Note t = "") then [] else [Note t]).
Proof.
  unfold updated.
  destruct (decide (Note t = "")); simpl; case_match; simpl;
    by rewrite ?app_nil_r.
Qed.

Lemma updated_Score (wy wo : Z) (v : Acc) (t : Topic) :
  Acc_Score (updated wy wo v t) = int_add (Acc_Score v) (weightOf wy wo t).
Proof.
  unfold updated, weightOf.
  by destruct (decide (Note t = "")); simpl; case_match.
Qed.

Lemma updated_Best (wy wo : Z) (v : Acc) (t : Topic) :
  Acc_Best (updated wy wo v t) = t ∨ Acc_Best (updated wy wo v t) = Acc_Best v.
Proof.
  unfold updated.
  destruct (decide (Note t = "")); simpl; case_match; auto.
Qed.

(** The stored title is the title of the first topic folded in at the
    key. *)
Lemma acc_title_first (wy wo : Z) (l : list Topic) (k : string) (v : Acc) :
  foldl (addW wy wo) ∅ l !! k = Some v →
  ∃ i t, firstWithKey TrimSpace ToLower l i t ∧ keyOf t = k ∧
         Acc_Title v = Title t.
Proof.
  revert k v. induction l as [|t l IH] using rev_ind; intros k v.
  { simpl. by rewrite lookup_empty. }
  rewrite foldl_snoc, addWith_lookup.
  assert (∀ v0, foldl (addW wy wo) ∅ l !! k = Some v0 →
            ∃ i t0, firstWithKey TrimSpace ToLower (l ++ [t]) i t0 ∧
                    keyOf t0 = k ∧ Acc_Title v0 = Title t0) as Hold.
  { intros v0 (i & t0 & Hfirst & ? & ?)%IH. exists i, t0.
    split; [by apply firstWithKey_app|done]. }
  destruct (decide (keyOf t = "")); [by apply Hold|].
  destruct (decide (keyOf t = k)) as [<-|]; [|by apply Hold].
  intros [= <-]. rewrite updated_Title.
  destruct (foldl (addW wy wo) ∅ l !! keyOf t) as [v0|] eqn:Hv0; simpl.
  { by apply Hold. }
  exists (length l), t. split; [|done].
  split; [by rewrite list_lookup_middle|]. split; [done|].
  intros j u Hj. rewrite lookup_app_l by done. intros Hu Heq.
  apply eq_None_not_Some in Hv0. apply Hv0, acc_dom. split; [done|].
  exists u. split; [by eapply list_elem_of_lookup_2|done].
Qed.

(** The notes are the non-empty notes of the topics folded in at the
    key, in the order they were folded in. *)
Lemma acc_notes (wy wo : Z) (l : list Topic) (k : string) (v : Acc) :
  foldl (addW wy wo) ∅ l !! k = Some v →
  Acc_Note v = notesOf (groupOf k l).
Proof.
  revert k v. induction l as [|t l IH] using rev_ind; intros k v.
  { simpl. by rewrite lookup_empty. }
  rewrite foldl_snoc, addWith_lookup, group_snoc.
  destruct (decide (keyOf t = "")) as [He|Hne].
  { intros Hv. pose proof (acc_key_of_title _ _ _ _ _ _ _ Hv) as [_ Hk].
    rewrite decide_False by congruence. rewrite app_nil_r. by apply IH. }
  destruct (decide (keyOf t = k)) as [<-|Hk].
  2:{ rewrite app_nil_r. by apply IH. }
  intros [= <-]. rewrite updated_Note. unfold notesOf.
  rewrite fmap_app, filter_app. simpl. rewrite (filter_singleton _ _ []).
  destruct (foldl (addW wy wo) ∅ l !! keyOf t) as [v0|] eqn:Hv0; simpl.
  - rewrite (IH _ _ Hv0). unfold notesOf. f_equal.
    destruct (decide (Note t = "")) as [Hn|Hn].
    + by rewrite decide_False by (by intros []).
    + by rewrite decide_True.
  - rewrite (group_absent wy wo l) by done. simpl.
    destruct (decide (Note t = "")) as [Hn|Hn].
    + by rewrite decide_False by (by intros []).
    + by rewrite decide_True.
Qed.

(** The score is the 64-bit sum of the weights of the topics folded in
    at the key. *)
Lemma acc_score (wy wo : Z) (l : list Topic) (k : string) (v : Acc) :
  foldl (addW wy wo) ∅ l !! k = Some v →
  Acc_Score v = int_add 0 (weightSum wy wo (groupOf k l)).
Proof.
  assert (∀ g t, weightSum wy wo (g ++ [t])
                 = weightSum wy wo g + weightOf wy wo t) as Hsum.
  { intros g t. unfold weightSum. induction g as [|u g IHg].
    - simpl. lia.
    - rewrite <-app_comm_cons, !fmap_cons. simpl. rewrite IHg. lia. }
  revert k v. induction l as [|t l IH] using rev_ind; intros k v.
  { simpl. by rewrite lookup_empty. }
  rewrite foldl_snoc, addWith_lookup, group_snoc.
  destruct (decide (keyOf t = "")) as [He|Hne].
  { intros Hv. pose proof (acc_key_of_title _ _ _ _ _ _ _ Hv) as [_ Hk].
    rewrite decide_False by congruence. rewrite app_nil_r. by apply IH. }
  destruct (decide (keyOf t = k)) as [<-|Hk].
  2:{ rewrite app_nil_r. by apply IH. }
  intros [= <-]. rewrite updated_Score, Hsum.
  destruct (foldl (addW wy wo) ∅ l !! keyOf t) as [v0|] eqn:Hv0; simpl.
  - rewrite (IH _ _ Hv0). apply int_add_wrap.
  - rewrite (group_absent wy wo l) by done. done.
Qed.

(** The best representative is one of the topics folded in at the key. *)
Lemma acc_best_contributes (wy wo : Z) (l : list Topic) (k : string) (v : Acc) :
  foldl (addW wy wo) ∅ l !! k = Some v →
  contributes TrimSpace ToLower k l (Acc_Best v).
Proof.
  revert k v. induction l as [|t l IH] using rev_ind; intros k v.
  { simpl. by rewrite lookup_empty. }
  rewrite foldl_snoc, addWith_lookup.
  destruct (decide (keyOf t = "")).
  { intros Hv. apply contributes_snoc. left. by apply IH. }
  destruct (decide (keyOf t = k)) as [<-|].
  2:{ intros Hv. apply contributes_snoc. left. by apply IH. }
  intros [= <-]. apply contributes_snoc.
  destruct (updated_Best wy wo
              (default (mkAcc (Title t) [] 0 t) (foldl (addW wy wo) ∅ l !! keyOf t)) t)
    as [->| ->]; [by right|].
  destruct (foldl (addW wy wo) ∅ l !! keyOf t) as [v0|] eqn:Hv0; simpl.
  - left. by apply IH.
  - by right.
Qed.
End AccContents.

(** ** More about the merged list *)

Lemma truncate_cap (topN : Z) (merged : list Topic) :
  truncate topN merged = cap topN merged.
Proof.
  rewrite truncate_take. unfold cap.
  destruct (0 <? topN); [done|]. by rewrite firstn_all.
Qed.

Lemma cap_nil_iff {A : Type} (max : Z) (l : list A) : cap max l = [] ↔ l = [].
Proof.
  unfold cap. destruct (Z.ltb_spec 0 max); [|done].
  split; [|intros ->; apply take_nil].
  destruct l as [|x l]; [done|].
  destruct (Z.to_nat max) as [|n] eqn:Hn; [exfalso; lia|done].
Qed.

Lemma weightSum_counts (wy wo : Z) (g : list Topic) :
  weightSum wy wo g
  = wy * Z.of_nat (length (filter (λ t, Source t = "yahoo") g))
    + wo * Z.of_nat (length (filter (λ t, Source t ≠ "yahoo") g)).
Proof.
  unfold weightSum. induction g as [|t g IH]; [simpl; lia|].
  rewrite fmap_cons, !filter_cons. simpl. rewrite IH. unfold weightOf.
  destruct (decide (Source t = "yahoo")) as [Hs|Hs].
  - rewrite decide_False by (by intros []). simpl length. lia.
  - rewrite decide_True by done. simpl length. lia.
Qed.

Section MergeEntries.
Context (TrimSpace ToLower : string → string).

Local Abbreviation keyOf t := (mergeKey TrimSpace ToLower (Title t)).
Local Abbreviation merge := (mergeAndRank TrimSpace ToLower).

Lemma mergeAndRank_cap (yahoo google : list Topic) (topN : Z) :
  merge yahoo google topN = cap topN (merge yahoo google 0).
Proof.
  unfold mergeAndRank. rewrite !mergeAndRankWith_unfold.
  by rewrite (truncate_all 0), truncate_cap by lia.
Qed.

Lemma untruncated_length (yahoo google : list Topic) :
  length (merge yahoo google 0)
  = size (keySet TrimSpace ToLower (yahoo ++ google) ∖ {[""]}).
Proof.
  rewrite <-(length_fmap (λ o, keyOf o)).
  rewrite <-(size_list_to_set (C:=gset string))
    by apply mergeAndRankWith_keys_NoDup.
  f_equal. apply set_eq. intros k.
  rewrite elem_of_list_to_set, untruncated_has_key, elem_of_difference.
  unfold keySet, contributes. rewrite elem_of_list_to_set, list_elem_of_fmap.
  rewrite elem_of_singleton. split.
  - intros [Hk (t & Ht & <-)]. split; [by exists t|done].
  - intros [(t & -> & Ht) Hk]. split; [done|]. by exists t.
Qed.

Lemma untruncated_nil_iff (yahoo google : list Topic) :
  merge yahoo google 0 = [] ↔ ∀ t, t ∈ yahoo ++ google → keyOf t = "".
Proof.
  split.
  - intros Hnil t Ht. destruct (decide (keyOf t = "")) as [|Hk]; [done|].
    assert (keyOf t ∈ (λ o, keyOf o) <$> merge yahoo google 0) as Hin.
    { apply untruncated_has_key. split; [done|]. by exists t. }
    rewrite Hnil in Hin. by apply elem_of_nil in Hin.
  - intros Hall. apply elem_of_nil_inv. intros o Ho.
    assert (keyOf o ∈ (λ o, keyOf o) <$> merge yahoo google 0) as Hin.
    { apply list_elem_of_fmap. by exists o. }
    apply untruncated_has_key in Hin as [Hk (t & Ht & Hkt)].
    rewrite (Hall t Ht) in Hkt. congruence.
Qed.
End MergeEntries.

(** X1: the list returned under a cap is the first [topN] entries of the
    list returned without one; the list without a cap has one entry for
    each distinct non-empty normalized title of the inputs, and a positive
    cap bounds the length of what is returned. *)
Theorem mergeAndRank_topN_prefix (TrimSpace ToLower : string → string)
    (yahoo google : list Topic) (topN : Z) :
  mergeAndRank TrimSpace ToLower yahoo google topN
  = cap topN (mergeAndRank TrimSpace ToLower yahoo google 0) ∧
  length (mergeAndRank TrimSpace ToLower yahoo google 0)
  = size (keySet TrimSpace ToLower (yahoo ++ google) ∖ {[""]}) ∧
  length (mergeAndRank TrimSpace ToLower yahoo google topN)
  = (if 0 <? topN
     then Nat.min (Z.to_nat topN)
            (size (keySet TrimSpace ToLower (yahoo ++ google) ∖ {[""]}))
     else size (keySet TrimSpace ToLower (yahoo ++ google) ∖ {[""]})).
Proof.
  split; [apply mergeAndRank_cap|]. split; [apply untruncated_length|].
  by rewrite mergeAndRank_cap, cap_length, untruncated_length.
Qed.

(** X2: [mergeAndRank] returns an empty list exactly when no input title
    has a non-empty normalized key, whatever the cap. *)
Theorem mergeAndRank_nil_iff (TrimSpace ToLower : string → string)
    (yahoo google : list Topic) (topN : Z) :
  mergeAndRank TrimSpace ToLower yahoo google topN = [] ↔
  ∀ t, t ∈ yahoo ++ google → mergeKey TrimSpace ToLower (Title t) = "".
Proof. rewrite mergeAndRank_cap, cap_nil_iff. apply untruncated_nil_iff. Qed.

(** X3: the title displayed by a merged entry is the title, as written, of
    the first topic with its normalized key, the first list being read
    before the second. *)
Theorem mergeAndRank_first_title (TrimSpace ToLower : string → string)
    (yahoo google : list Topic) (topN : Z) (o : Topic) :
  o ∈ mergeAndRank TrimSpace ToLower yahoo google topN →
  ∃ i t, firstWithKey TrimSpace ToLower (yahoo ++ google) i t ∧
         mergeKey TrimSpace ToLower (Title t)
         = mergeKey TrimSpace ToLower (Title o) ∧
         Title o = Title t.
Proof.
  intros (k & v & Hv & ->)%elem_of_mergeAndRankWith.
  apply acc_title_first in Hv as (i & t & Hfirst & Hk & Htitle).
  exists i, t. simpl. rewrite Htitle. done.
Qed.

Lemma mergeAndRank_first_title_witness :
  ∃ i t,
    firstWithKey TrimSpaceASCII ToLowerASCII
      ([mkTopic "yahoo" "Foo " "" 2] ++ [mkTopic "google" "foo" "" 1]) i t ∧
    mergeKey TrimSpaceASCII ToLowerASCII (Title t)
    = mergeKey TrimSpaceASCII ToLowerASCII
        (Title (mkTopic "mix" "Foo " "" 1)) ∧
    Title (mkTopic "mix" "Foo " "" 1) = Title t.
Proof.
  apply (mergeAndRank_first_title TrimSpaceASCII ToLowerASCII
           [mkTopic "yahoo" "Foo " "" 2] [mkTopic "google" "foo" "" 1] 10).
  vm_compute. left.
Defined.

(** X4: the note of a merged entry is the non-empty notes of the topics
    with its normalized key, in input order (first list, then second),
    joined with " / ". *)
Theorem mergeAndRank_notes (TrimSpace ToLower : string → string)
    (yahoo google : list Topic) (topN : Z) (o : Topic) :
  o ∈ mergeAndRank TrimSpace ToLower yahoo google topN →
  Note o
  = Join (notesOf (group TrimSpace ToLower
                     (mergeKey TrimSpace ToLower (Title o))
                     (yahoo ++ google))) " / ".
Proof.
  intros (k & v & Hv & ->)%elem_of_mergeAndRankWith.
  pose proof (acc_key_of_title _ _ _ _ _ _ _ Hv) as [Hk _].
  simpl. rewrite Hk. by rewrite (acc_notes _ _ _ _ _ _ _ Hv).
Qed.

Lemma mergeAndRank_notes_witness :
  Note (mkTopic "mix" "Foo " "top / 500+ searches" 1)
  = Join (notesOf (group TrimSpaceASCII ToLowerASCII
                     (mergeKey TrimSpaceASCII ToLowerASCII
                        (Title (mkTopic "mix" "Foo " "top / 500+ searches" 1)))
                     ([mkTopic "yahoo" "Foo " "top" 2; mkTopic "yahoo" "bar" "x" 3]
                      ++ [mkTopic "google" "FOO" "" 7;
                          mkTopic "google" "foo" "500+ searches" 1]))) " / ".
Proof.
  apply (mergeAndRank_notes TrimSpaceASCII ToLowerASCII
           [mkTopic "yahoo" "Foo " "top" 2; mkTopic "yahoo" "bar" "x" 3]
           [mkTopic "google" "FOO" "" 7; mkTopic "google" "foo" "500+ searches" 1]
           1).
  vm_compute. left.
Defined.

(** X5: every merged entry has the source tag "mix" and the rank of one
    of the input topics with its normalized key: no rank is made up,
    whatever the ranks of the inputs are. *)
Theorem mergeAndRank_entry_origin (TrimSpace ToLower : string → string)
    (yahoo google : list Topic) (topN : Z) (o : Topic) :
  o ∈ mergeAndRank TrimSpace ToLower yahoo google topN →
  Source o = "mix" ∧
  ∃ t, contributes TrimSpace ToLower (mergeKey TrimSpace ToLower (Title o))
         (yahoo ++ google) t ∧
       Rank o = Rank t.
Proof.
  intros (k & v & Hv & ->)%elem_of_mergeAndRankWith.
  pose proof (acc_key_of_title _ _ _ _ _ _ _ Hv) as [Hk _].
  split; [done|]. exists (Acc_Best v). simpl. rewrite Hk.
  split; [|done]. by eapply acc_best_contributes.
Qed.

Lemma mergeAndRank_entry_origin_witness :
  Source (mkTopic "mix" "a" "" (-4)) = "mix" ∧
  ∃ t, contributes TrimSpaceASCII ToLowerASCII
         (mergeKey TrimSpaceASCII ToLowerASCII (Title (mkTopic "mix" "a" "" (-4))))
         ([mkTopic "yahoo" "a" "" (-4)] ++ [mkTopic "google" "A" "" 2]) t ∧
       Rank (mkTopic "mix" "a" "" (-4)) = Rank t.
Proof.
  apply (mergeAndRank_entry_origin TrimSpaceASCII ToLowerASCII
           [mkTopic "yahoo" "a" "" (-4)] [mkTopic "google" "A" "" 2] 0).
  vm_compute. left.
Defined.

(** X6: the comparator handed to [sort.Slice] is a strict weak order on
    all topics: irreflexive and transitive, and two topics neither of
    which is less than the other have the same rank and the same title. *)
Theorem less_strict_weak_order :
  (∀ a, less a a = false) ∧
  (∀ a b c, less a b = true → less b c = true → less a c = true) ∧
  (∀ a b, less a b = false ∧ less b a = false ↔
          Rank a = Rank b ∧ Title a = Title b).
Proof.
  split; [apply less_irrefl|]. split; [apply less_trans|].
  intros a b. split; [intros [? ?]; by apply less_total|].
  intros [Hr Ht]. unfold less. rewrite Hr, Ht, Z.eqb_refl. simpl.
  rewrite string_lt_irrefl.
  destruct (Z.eqb_spec (Rank b) 0), (Z.ltb_spec 0 (Rank b)); simpl; try done; lia.
Qed.

(** X7: the score of an accumulator is the sum, in 64-bit arithmetic, of
    3 for every topic of its key whose source is "yahoo" and 2 for every
    other topic of its key; below 2^63 it is that sum. *)
Theorem accumulate_score (TrimSpace ToLower : string → string)
    (yahoo google : list Topic) (k : string) (v : Acc) :
  accumulateWith TrimSpace ToLower 3 2 yahoo google !! k = Some v →
  Acc_Score v
  = int_add 0
      (3 * Z.of_nat (length (filter (λ t, Source t = "yahoo")
                               (group TrimSpace ToLower k (yahoo ++ google))))
       + 2 * Z.of_nat (length (filter (λ t, Source t ≠ "yahoo")
                                 (group TrimSpace ToLower k (yahoo ++ google))))) ∧
  (3 * Z.of_nat (length (group TrimSpace ToLower k (yahoo ++ google))) < 2 ^ 63 →
   Acc_Score v
   = 3 * Z.of_nat (length (filter (λ t, Source t = "yahoo")
                             (group TrimSpace ToLower k (yahoo ++ google))))
     + 2 * Z.of_nat (length (filter (λ t, Source t ≠ "yahoo")
                               (group TrimSpace ToLower k (yahoo ++ google))))).
Proof.
  rewrite accumulateWith_app. intros Hv.
  rewrite (acc_score _ _ _ _ _ _ _ Hv), weightSum_counts.
  split; [done|]. intros Hsmall. apply int_add_small.
  pose proof (length_filter (λ t, Source t = "yahoo")
                (group TrimSpace ToLower k (yahoo ++ google))).
  pose proof (length_filter (λ t, Source t ≠ "yahoo")
                (group TrimSpace ToLower k (yahoo ++ google))).
  pose proof (filter_app_complement (λ t, Source t = "yahoo")
                (group TrimSpace ToLower k (yahoo ++ google))) as Hperm.
  apply Permutation_length in Hperm. rewrite length_app in Hperm. lia.
Qed.

Lemma accumulate_score_witness :
  Acc_Score (mkAcc "Foo " ["top"] 7 (mkTopic "google" "foo" "" 1))
  = int_add 0
      (3 * Z.of_nat (length (filter (λ t, Source t = "yahoo")
           (group TrimSpaceASCII ToLowerASCII "foo"
              ([mkTopic "yahoo" "Foo " "top" 2]
               ++ [mkTopic "google" "FOO" "" 7; mkTopic "google" "foo" "" 1]))))
       + 2 * Z.of_nat (length (filter (λ t, Source t ≠ "yahoo")
           (group TrimSpaceASCII ToLowerASCII "foo"
              ([mkTopic "yahoo" "Foo " "top" 2]
               ++ [mkTopic "google" "FOO" "" 7; mkTopic "google" "foo" "" 1]))))).
Proof.
  apply (proj1 (accumulate_score TrimSpaceASCII ToLowerASCII
                  [mkTopic "yahoo" "Foo " "top" 2]
                  [mkTopic "google" "FOO" "" 7; mkTopic "google" "foo" "" 1]
                  "foo" _ ltac:(by vm_compute))).
Defined.

(** ** More about the adapters *)

Lemma StronglySorted_sublist {A : Type} (R : relation A) (l1 l2 : list A) :
  l1 `sublist_of` l2 → StronglySorted R l2 → StronglySorted R l1.
Proof.
  induction 1 as [|x l1 l2 Hsub IH|x l1 l2 Hsub IH]; intros Hl2.
  - constructor.
  - apply StronglySorted_inv in Hl2 as [Hl2 Hx]. constructor; [by apply IH|].
    rewrite Forall_forall in Hx |- *. intros y Hy.
    apply Hx. by eapply elem_of_sublist.
  - apply StronglySorted_inv in Hl2 as [Hl2 _]. by apply IH.
Qed.

Lemma survivors_ascending {A : Type} (P : A → Prop) `{∀ x, Decision (P x)}
    (i : nat) (l : list A) :
  StronglySorted (λ a b, (a.1 < b.1)%nat) (survivors P i l) ∧
  Forall (λ a, (i ≤ a.1)%nat ∧ P a.2) (survivors P i l).
Proof.
  revert i. induction l as [|x l IH]; intros i; simpl.
  { split; constructor. }
  destruct (IH (S i)) as [Hs Hf]. destruct (decide (P x)).
  - split.
    + constructor; [done|]. eapply Forall_impl; [exact Hf|]. simpl. lia.
    + constructor; [simpl; split; [lia|done]|].
      eapply Forall_impl; [exact Hf|]. simpl. intros ? [? ?]. split; [lia|done].
  - split; [done|]. eapply Forall_impl; [exact Hf|]. simpl.
    intros ? [? ?]. split; [lia|done].
Qed.

Lemma cap_StronglySorted {A : Type} (R : relation A) (max : Z) (l : list A) :
  StronglySorted R l → StronglySorted R (cap max l).
Proof. apply StronglySorted_sublist, cap_sublist. Qed.

Lemma cap_bound {A : Type} (max : Z) (l : list A) :
  0 < max → Z.of_nat (length (cap max l)) ≤ max.
Proof.
  intros Hmax. rewrite cap_length.
  destruct (Z.ltb_spec 0 max); lia.
Qed.

Lemma cap_cap_zero {A : Type} (l : list A) : cap 0 l = l.
Proof. done. Qed.

Section GoogleMore.
Context (TrimSpace : string → string).
Context (reTraffic_FindString : string → string).
Context (xml_Decode : string → string + RSS).
Context (httpClient_Do : Request → DoResult).

Local Abbreviation collect := (collectItems TrimSpace reTraffic_FindString).
Local Abbreviation topicOf := (itemTopic TrimSpace reTraffic_FindString).
Local Abbreviation won := (succeeds TrimSpace reTraffic_FindString xml_Decode httpClient_Do).
Local Abbreviation lost := (fails TrimSpace reTraffic_FindString xml_Decode httpClient_Do).
Local Abbreviation try := (tryURLs TrimSpace reTraffic_FindString xml_Decode httpClient_Do).
Local Abbreviation fetch := (fetchGoogleTrends TrimSpace reTraffic_FindString xml_Decode httpClient_Do).

Lemma collectItems_cap (max : Z) (items : list Item) :
  collect max 0 items [] = cap max (collect 0 0 items []).
Proof.
  rewrite !collectItems_survivors by (simpl; lia). by rewrite cap_cap_zero.
Qed.

Lemma collectItems_ascending (max : Z) (items : list Item) :
  StronglySorted (λ t u, Rank t < Rank u) (collect max 0 items []).
Proof.
  rewrite collectItems_survivors by (simpl; lia). simpl.
  apply cap_StronglySorted.
  eapply StronglySorted_fmap; [|apply survivors_ascending].
  intros [i it] [j it']. simpl. lia.
Qed.

Lemma collectItems_topic (max : Z) (items : list Item) (t : Topic) :
  t ∈ collect max 0 items [] →
  Source t = "google" ∧ Title t ≠ "" ∧ 1 ≤ Rank t ∧
  ∃ it, it ∈ items ∧ Title t = TrimSpace (Item_Title it).
Proof.
  intros [p Hp]%list_elem_of_lookup_1.
  apply collectItems_lookup in Hp as (_ & i & it & Hi & Hit & -> & _).
  simpl. split; [done|]. split; [done|]. split; [lia|].
  exists it. split; [by eapply list_elem_of_lookup_2|done].
Qed.

(** The two shapes of a result. *)
Lemma fetch_cases (geo : string) (max : Z) :
  (∃ url, url ∈ urls geo ∧ won max url (topics_of (fetch geo max)) ∧
          err_of (fetch geo max) = None ∧
          (requested (fetch geo max) = [primaryURL geo] ∨
           requested (fetch geo max) = [primaryURL geo; secondaryURL geo])) ∨
  (topics_of (fetch geo max) = [] ∧
   (∃ reason, err_of (fetch geo max) = Some reason) ∧
   requested (fetch geo max) = [primaryURL geo; secondaryURL geo]).
Proof.
  destruct (succeeds_or_fails TrimSpace reTraffic_FindString xml_Decode
              httpClient_Do max (primaryURL geo)) as [[ts1 Hok1]|[e1 Hko1]].
  { rewrite (fetch_primary _ _ _ _ _ _ _ Hok1). simpl. left.
    exists (primaryURL geo). split; [by left|]. split; [done|]. auto. }
  destruct (succeeds_or_fails TrimSpace reTraffic_FindString xml_Decode
              httpClient_Do max (secondaryURL geo)) as [[ts2 Hok2]|[e2 Hko2]].
  { rewrite (fetch_secondary _ _ _ _ _ _ _ _ Hko1 Hok2). simpl. left.
    exists (secondaryURL geo). split; [by right; left|]. split; [done|]. auto. }
  rewrite (fetch_none _ _ _ _ _ _ _ _ Hko1 Hko2). simpl. right.
  split; [done|]. split; [by exists e2|done].
Qed.

Lemma fetch_topic (geo : string) (max : Z) (t : Topic) :
  t ∈ topics_of (fetch geo max) →
  Source t = "google" ∧ Title t ≠ "" ∧ 1 ≤ Rank t ∧
  ∃ s, Title t = TrimSpace s.
Proof.
  intros Ht. destruct (fetch_cases geo max)
    as [(url & _ & (resp & rss & _ & _ & _ & Hts & _) & _)|[Hnil _]].
  - rewrite Hts in Ht.
    apply collectItems_topic in Ht as (? & ? & ? & it & _ & ?). eauto 6.
  - rewrite Hnil in Ht. by apply elem_of_nil in Ht.
Qed.

Lemma tryURLs_cap (max : Z) (candidates : list string)
    (lastErr : option error) (log : list string) :
  try max candidates lastErr log
  = mkFetched (cap max (topics_of (try 0 candidates lastErr log)))
      (err_of (try 0 candidates lastErr log))
      (requested (try 0 candidates lastErr log)).
Proof.
  revert lastErr log.
  induction candidates as [|url rest IH]; intros lastErr log; simpl.
  { f_equal. unfold cap. destruct (0 <? max); [by rewrite take_nil|done]. }
  destruct (get httpClient_Do url) as [err|resp]; [apply IH|].
  destruct (Contains (ContentType resp) "xml"); simpl; [|apply IH].
  destruct (xml_Decode (Body resp)) as [err|rss]; [apply IH|].
  rewrite (collectItems_cap max).
  destruct (collect 0 0 (Channel_Items (RSS_Channel rss)) []) as [|t ts] eqn:Hts.
  - replace (cap max []) with (@nil Topic)
      by (symmetry; by apply cap_nil_iff).
    simpl. apply IH.
  - rewrite (proj2 (nonempty_length (t :: ts))) by done. simpl.
    destruct (cap max (t :: ts)) as [|t' ts'] eqn:Hcap.
    + by apply cap_nil_iff in Hcap.
    + by rewrite (proj2 (nonempty_length (t' :: ts'))).
Qed.
End GoogleMore.

(** What [fetchGoogleTrends] returns when every request can be built. *)
Lemma fetch_returned_wellformed (TrimSpace : string → string)
    (reTraffic_FindString : string → string)
    (xml_Decode : string → string + RSS)
    (httpClient_Do : Request → DoResult) (geo : string) (max : Z) :
  (topics_of (fetchGoogleTrends TrimSpace reTraffic_FindString xml_Decode
                httpClient_Do geo max) ≠ [] ∧
   err_of (fetchGoogleTrends TrimSpace reTraffic_FindString xml_Decode
             httpClient_Do geo max) = None ∨
   topics_of (fetchGoogleTrends TrimSpace reTraffic_FindString xml_Decode
                httpClient_Do geo max) = [] ∧
   err_of (fetchGoogleTrends TrimSpace reTraffic_FindString xml_Decode
             httpClient_Do geo max) ≠ None) ∧
  (requested (fetchGoogleTrends TrimSpace reTraffic_FindString xml_Decode
                httpClient_Do geo max) = [primaryURL geo] ∨
   requested (fetchGoogleTrends TrimSpace reTraffic_FindString xml_Decode
                httpClient_Do geo max) = [primaryURL geo; secondaryURL geo]) ∧
  (∀ t, t ∈ topics_of (fetchGoogleTrends TrimSpace reTraffic_FindString
                         xml_Decode httpClient_Do geo max) →
        Source t = "google" ∧ Title t ≠ "" ∧ 1 ≤ Rank t) ∧
  (∀ p q t u, (p < q)%nat →
     topics_of (fetchGoogleTrends TrimSpace reTraffic_FindString xml_Decode
                  httpClient_Do geo max) !! p = Some t →
     topics_of (fetchGoogleTrends TrimSpace reTraffic_FindString xml_Decode
                  httpClient_Do geo max) !! q = Some u →
     Rank t < Rank u) ∧
  (0 < max →
   Z.of_nat (length (topics_of (fetchGoogleTrends TrimSpace
                                  reTraffic_FindString xml_Decode
                                  httpClient_Do geo max))) ≤ max).
Proof.
  destruct (fetch_cases TrimSpace reTraffic_FindString xml_Decode
              httpClient_Do geo max)
    as [(url & _ & (resp & rss & _ & _ & _ & Hts & Hne) & Herr & Hreq)
       |(Hnil & [e He] & Hreq)].
  - split; [by left|].
    split; [done|]. split.
    { intros t Ht. apply fetch_topic in Ht as (? & ? & ? & _). done. }
    rewrite Hts. split.
    + intros p q t u Hpq Hp Hq.
      eapply (StronglySorted_lookup (λ t u, Rank t < Rank u));
        [apply collectItems_ascending|done..].
    + intros Hmax. rewrite collectItems_cap. by apply cap_bound.
  - split; [right; split; [done|by rewrite He]|].
    split; [by right|]. rewrite Hnil. split; [by intros t ?%elem_of_nil|].
    split; [by intros p q t u _ ?|]. simpl. lia.
Qed.

(** X9: the cap of [fetchGoogleTrends] only cuts the list: with any [max]
    the URLs requested and the error are those of the call without a cap,
    and the topics are the first [max] topics of that call (all of them
    when [max] is not positive). *)
Theorem fetchGoogleTrends_cap (TrimSpace : string → string)
    (reTraffic_FindString : string → string)
    (xml_Decode : string → string + RSS)
    (httpClient_Do : Request → DoResult) (geo : string) (max : Z) :
  fetchGoogleTrends TrimSpace reTraffic_FindString xml_Decode httpClient_Do
    geo max
  = mkFetched
      (cap max (topics_of (fetchGoogleTrends TrimSpace reTraffic_FindString
                             xml_Decode httpClient_Do geo 0)))
      (err_of (fetchGoogleTrends TrimSpace reTraffic_FindString
                 xml_Decode httpClient_Do geo 0))
      (requested (fetchGoogleTrends TrimSpace reTraffic_FindString
                    xml_Decode httpClient_Do geo 0)).
Proof. apply tryURLs_cap. Qed.

Section YahooMore.
Context (TrimSpace ToLower : string → string).
Context (Document : Type).
Context (NewDocumentFromReader : string → string + Document).
Context (Find : Document → string → list Anchor).
Context (httpClient_Do : Request → DoResult).

Local Abbreviation keyOf := (dedupeKey TrimSpace ToLower).
Local Abbreviation firsts := (firstOccurrences TrimSpace ToLower).
Local Abbreviation walk := (visit TrimSpace).
Local Abbreviation fetchY :=
  (fetchYahooRealtime TrimSpace ToLower Document NewDocumentFromReader Find
     httpClient_Do).
Local Abbreviation trendURL := "https://search.yahoo.co.jp/realtime/trend".
Local Abbreviation selector := "ol li a, ul li a".

Lemma firstPass_ascending (selection : list Anchor) :
  StronglySorted (λ t u, Rank t < Rank u) (Each 0 selection walk []).
Proof.
  rewrite Each_visit. simpl.
  eapply StronglySorted_fmap; [|apply survivors_ascending].
  intros [i a] [j a']. simpl. lia.
Qed.

Lemma firstPass_topic (selection : list Anchor) (t : Topic) :
  t ∈ Each 0 selection walk [] ↔
  ∃ i a, selection !! i = Some a ∧ trendLink TrimSpace a ∧
         t = anchorTopic TrimSpace i a.
Proof.
  rewrite list_elem_of_lookup. split.
  - intros [p (i & a & ? & ? & ? & _)%firstPass_lookup]. by exists i, a.
  - intros (i & a & Hi & Ha & ->).
    exists (length (filter (trendLink TrimSpace) (take i selection))).
    apply firstPass_lookup. by exists i, a.
Qed.

Lemma firstOccurrences_nonempty (l : list Topic) :
  firsts l ≠ [] ↔ ∃ t, t ∈ l ∧ keyOf t ≠ "".
Proof.
  split.
  - destruct (firsts l) as [|t ts] eqn:Hf; [done|]. intros _.
    assert (keyOf t ∈ keyOf <$> firsts l) as Hin by (rewrite Hf; by left).
    apply firstOccurrences_key in Hin as [Hk (u & Hu & ?)%list_elem_of_fmap].
    exists u. split; [done|congruence].
  - intros (t & Ht & Hk) Hnil.
    assert (keyOf t ∈ keyOf <$> firsts l) as Hin.
    { apply firstOccurrences_key. split; [done|].
      apply list_elem_of_fmap. by exists t. }
    rewrite Hnil in Hin. by apply elem_of_nil in Hin.
Qed.

(** The two shapes of a result. *)
Lemma fetchYahooRealtime_cases (max : Z) :
  (∃ reason, fetchY max = ([], Some reason)) ∨
  (∃ resp doc,
     get httpClient_Do trendURL = DoResponse resp ∧
     StatusCode resp = 200 ∧
     NewDocumentFromReader (Body resp) = inr doc ∧
     fetchY max = (cap max (firsts (Each 0 (Find doc selector) walk [])), None) ∧
     firsts (Each 0 (Find doc selector) walk []) ≠ []).
Proof.
  unfold fetchYahooRealtime.
  destruct (get httpClient_Do _) as [err|resp] eqn:Hget; [left; eauto|].
  destruct (Z.eqb_spec (StatusCode resp) 200) as [Hst|Hst]; simpl;
    [|left; eauto].
  destruct (NewDocumentFromReader (Body resp)) as [err|doc] eqn:Hdoc;
    [left; eauto|].
  rewrite dedupe_cap.
  destruct (cap max (firsts (Each 0 (Find doc selector) walk [])))
    as [|t ts] eqn:Hcap; simpl; [left; eauto|].
  right. exists resp, doc. do 3 (split; [done|]). split; [by rewrite Hcap|].
  intros Hnil. apply (cap_nil_iff max) in Hnil. congruence.
Qed.

Lemma fetchYahooRealtime_topic (max : Z) (t : Topic) :
  t ∈ (fetchY max).1 →
  Source t = "yahoo" ∧ Note t = "" ∧ Title t ≠ "" ∧ 1 ≤ Rank t ∧
  keyOf t ≠ "".
Proof.
  destruct (fetchYahooRealtime_cases max)
    as [[e ->]|(resp & doc & _ & _ & _ & -> & _)]; simpl.
  { by intros ?%elem_of_nil. }
  intros Ht. eapply elem_of_sublist in Ht; [|apply cap_sublist].
  pose proof Ht as (i & (_ & Hk & _))%firstOccurrences_first.
  eapply elem_of_sublist in Ht; [|apply firstOccurrences_sublist].
  apply firstPass_topic in Ht as (j & a & _ & [Ha _] & ->). simpl.
  do 3 (split; [done|]). split; [lia|done].
Qed.

Lemma fetchYahooRealtime_cap (max : Z) :
  fetchY max = (cap max (fetchY 0).1, (fetchY 0).2).
Proof.
  unfold fetchYahooRealtime.
  assert (∀ e : error, (([] : list Topic), Some e)
                       = (cap max (([] : list Topic), Some e).1,
                          (([] : list Topic), Some e).2)) as Hnil.
  { intros e. simpl. f_equal. symmetry. by apply cap_nil_iff. }
  destruct (get httpClient_Do _) as [err|resp]; [apply Hnil|].
  destruct (negb (StatusCode resp =? 200)); [apply Hnil|].
  destruct (NewDocumentFromReader (Body resp)) as [err|doc]; [apply Hnil|].
  rewrite !dedupe_cap, cap_cap_zero.
  destruct (firsts (Each 0 (Find doc selector) walk [])) as [|t ts] eqn:Hf.
  - replace (cap max []) with (@nil Topic)
      by (symmetry; by apply cap_nil_iff).
    simpl. apply Hnil.
  - simpl. destruct (cap max (t :: ts)) as [|t' ts'] eqn:Hcap.
    + by apply cap_nil_iff in Hcap.
    + done.
Qed.
Lemma firstPass_has_key (selection : list Anchor) :
  firsts (Each 0 selection walk []) ≠ [] ↔
  ∃ a, a ∈ selection ∧ trendLink TrimSpace a ∧
       ToLower (TrimSpace (TrimSpace (text a))) ≠ "".
Proof.
  rewrite firstOccurrences_nonempty. split.
  - intros (t & (i & a & Hi & Ha & ->)%firstPass_topic & Hk).
    exists a. split; [by eapply list_elem_of_lookup_2|done].
  - intros (a & [i Hi]%list_elem_of_lookup_1 & Ha & Hk).
    exists (anchorTopic TrimSpace i a). split; [|done].
    apply firstPass_topic. by exists i, a.
Qed.

Lemma fetchYahooRealtime_ok_iff (max : Z) :
  (fetchY max).2 = None ↔
  ∃ resp doc a,
    get httpClient_Do trendURL = DoResponse resp ∧
    StatusCode resp = 200 ∧
    NewDocumentFromReader (Body resp) = inr doc ∧
    a ∈ Find doc selector ∧ trendLink TrimSpace a ∧
    ToLower (TrimSpace (TrimSpace (text a))) ≠ "".
Proof.
  split.
  - destruct (fetchYahooRealtime_cases max)
      as [[e ->]|(resp & doc & ? & ? & ? & _ & Hne)]; [done|].
    intros _. apply firstPass_has_key in Hne as (a & ? & ? & ?).
    by exists resp, doc, a.
  - intros (resp & doc & a & Hget & Hst & Hdoc & Ha & Hlink & Hk).
    unfold fetchYahooRealtime. rewrite Hget, Hst, Hdoc, dedupe_cap. simpl.
    destruct (cap max (firsts (Each 0 (Find doc selector) walk [])))
      as [|t ts] eqn:Hcap; [|done].
    apply cap_nil_iff in Hcap. exfalso. revert Hcap.
    apply firstPass_has_key. by exists a.
Qed.

Lemma fetchYahooRealtime_no_topics_iff (max : Z) :
  (fetchY max).2 = Some yahoo_no_topics ↔
  ∃ resp doc,
    get httpClient_Do trendURL = DoResponse resp ∧
    StatusCode resp = 200 ∧
    NewDocumentFromReader (Body resp) = inr doc ∧
    ∀ a, a ∈ Find doc selector → trendLink TrimSpace a →
         ToLower (TrimSpace (TrimSpace (text a))) = "".
Proof.
  unfold fetchYahooRealtime.
  destruct (get httpClient_Do _) as [err|resp] eqn:Hget.
  { split; [done|]. by intros (? & ? & ? & _). }
  destruct (Z.eqb_spec (StatusCode resp) 200) as [Hst|Hst]; simpl.
  2:{ split; [done|]. intros (? & ? & [= <-] & ? & _). done. }
  destruct (NewDocumentFromReader (Body resp)) as [err|doc] eqn:Hdoc.
  { split; [done|]. intros (? & ? & [= <-] & _ & ? & _). congruence. }
  rewrite dedupe_cap.
  destruct (cap max (firsts (Each 0 (Find doc selector) walk [])))
    as [|t ts] eqn:Hcap; simpl.
  - split; [|done]. intros _. exists resp, doc. do 3 (split; [done|]).
    intros a Ha Hlink.
    destruct (decide (ToLower (TrimSpace (TrimSpace (text a))) = ""))
      as [|Hk]; [done|].
    apply cap_nil_iff in Hcap. exfalso. revert Hcap.
    apply firstPass_has_key. by exists a.
  - split; [done|]. intros (resp' & doc' & [= <-] & _ & Hdoc' & Hall).
    assert (doc' = doc) as -> by congruence.
    assert (firsts (Each 0 (Find doc selector) walk []) ≠ []) as Hne.
    { intros Hnil. apply (cap_nil_iff max) in Hnil. congruence. }
    apply firstPass_has_key in Hne as (a & Ha & Hlink & Hk).
    by destruct Hk; apply Hall.
Qed.
End YahooMore.

(** X10: [fetchYahooRealtime] returns either a non-empty list with a nil
    error or an empty list with an error; every topic returned has the
    source "yahoo", an empty note, a non-empty title, a non-empty key and
    a rank of at least 1; ranks increase strictly along the list, no two
    topics share a key, and a positive [max] bounds the length. *)
Theorem fetchYahooRealtime_wellformed (TrimSpace ToLower : string → string)
    (Document : Type) (NewDocumentFromReader : string → string + Document)
    (Find : Document → string → list Anchor)
    (httpClient_Do : Request → DoResult) (max : Z) :
  ((fetchYahooRealtime TrimSpace ToLower Document NewDocumentFromReader Find
      httpClient_Do max).1 ≠ [] ∧
   (fetchYahooRealtime TrimSpace ToLower Document NewDocumentFromReader Find
      httpClient_Do max).2 = None ∨
   (fetchYahooRealtime TrimSpace ToLower Document NewDocumentFromReader Find
      httpClient_Do max).1 = [] ∧
   (fetchYahooRealtime TrimSpace ToLower Document NewDocumentFromReader Find
      httpClient_Do max).2 ≠ None) ∧
  (∀ t, t ∈ (fetchYahooRealtime TrimSpace ToLower Document
               NewDocumentFromReader Find httpClient_Do max).1 →
        Source t = "yahoo" ∧ Note t = "" ∧ Title t ≠ "" ∧ 1 ≤ Rank t ∧
        dedupeKey TrimSpace ToLower t ≠ "") ∧
  (∀ p q t u, (p < q)%nat →
     (fetchYahooRealtime TrimSpace ToLower Document NewDocumentFromReader
        Find httpClient_Do max).1 !! p = Some t →
     (fetchYahooRealtime TrimSpace ToLower Document NewDocumentFromReader
        Find httpClient_Do max).1 !! q = Some u →
     Rank t < Rank u) ∧
  NoDup (dedupeKey TrimSpace ToLower <$>
           (fetchYahooRealtime TrimSpace ToLower Document
              NewDocumentFromReader Find httpClient_Do max).1) ∧
  (0 < max →
   Z.of_nat (length (fetchYahooRealtime TrimSpace ToLower Document
                       NewDocumentFromReader Find httpClient_Do max).1) ≤ max).
Proof.
  split; [|split; [apply fetchYahooRealtime_topic|]].
  - destruct (fetchYahooRealtime_cases TrimSpace ToLower Document
                NewDocumentFromReader Find httpClient_Do max)
      as [[e ->]|(resp & doc & _ & _ & _ & -> & Hne)]; simpl.
    + by right.
    + left. split; [|done]. intros Hnil. by apply cap_nil_iff in Hnil.
  - destruct (fetchYahooRealtime_cases TrimSpace ToLower Document
                NewDocumentFromReader Find httpClient_Do max)
      as [[e ->]|(resp & doc & _ & _ & _ & -> & Hne)]; simpl.
    { split; [by intros p q t u _ ?|]. split; [constructor|lia]. }
    split; [|split].
    + intros p q t u Hpq Hp Hq.
      eapply (StronglySorted_lookup (λ t u, Rank t < Rank u)); [|done..].
      apply cap_StronglySorted.
      eapply StronglySorted_sublist; [apply firstOccurrences_sublist|].
      apply firstPass_ascending.
    + unfold cap. destruct (0 <? max); [|apply firstOccurrences_NoDup].
      rewrite fmap_take. eapply sublist_NoDup; [|apply sublist_take].
      apply firstOccurrences_NoDup.
    + apply cap_bound.
Qed.

(** X11: the cap of [fetchYahooRealtime] only cuts the list: with any
    [max] the error is that of the call without a cap and the topics are
    the first [max] topics of that call (all of them when [max] is not
    positive). *)
Theorem fetchYahooRealtime_cap_prefix (TrimSpace ToLower : string → string)
    (Document : Type) (NewDocumentFromReader : string → string + Document)
    (Find : Document → string → list Anchor)
    (httpClient_Do : Request → DoResult) (max : Z) :
  fetchYahooRealtime TrimSpace ToLower Document NewDocumentFromReader Find
    httpClient_Do max
  = (cap max (fetchYahooRealtime TrimSpace ToLower Document
                NewDocumentFromReader Find httpClient_Do 0).1,
     (fetchYahooRealtime TrimSpace ToLower Document NewDocumentFromReader
        Find httpClient_Do 0).2).
Proof. apply fetchYahooRealtime_cap. Qed.

(** X12: [fetchYahooRealtime] succeeds exactly when the page is fetched
    with status 200, parses, and holds a matched anchor with a non-blank
    text, a trend link as target and a non-empty key; it reports that no
    topic was parsed exactly when the page is fetched with status 200 and
    parses but holds no such anchor. *)
Theorem fetchYahooRealtime_success_iff (TrimSpace ToLower : string → string)
    (Document : Type) (NewDocumentFromReader : string → string + Document)
    (Find : Document → string → list Anchor)
    (httpClient_Do : Request → DoResult) (max : Z) :
  ((fetchYahooRealtime TrimSpace ToLower Document NewDocumentFromReader Find
      httpClient_Do max).2 = None ↔
   ∃ resp doc a,
     get httpClient_Do "https://search.yahoo.co.jp/realtime/trend"
       = DoResponse resp ∧
     StatusCode resp = 200 ∧
     NewDocumentFromReader (Body resp) = inr doc ∧
     a ∈ Find doc "ol li a, ul li a" ∧ trendLink TrimSpace a ∧
     ToLower (TrimSpace (TrimSpace (text a))) ≠ "") ∧
  ((fetchYahooRealtime TrimSpace ToLower Document NewDocumentFromReader Find
      httpClient_Do max).2 = Some yahoo_no_topics ↔
   ∃ resp doc,
     get httpClient_Do "https://search.yahoo.co.jp/realtime/trend"
       = DoResponse resp ∧
     StatusCode resp = 200 ∧
     NewDocumentFromReader (Body resp) = inr doc ∧
     ∀ a, a ∈ Find doc "ol li a, ul li a" → trendLink TrimSpace a →
          ToLower (TrimSpace (TrimSpace (text a))) = "").
Proof.
  split; [apply fetchYahooRealtime_ok_iff|apply fetchYahooRealtime_no_topics_iff].
Qed.

(** ** The search branch of [main] *)

Lemma trimLeftASCII_head (s : string) :
  trimLeftASCII s = EmptyString ∨
  ∃ c r, trimLeftASCII s = String c r ∧ isSpaceASCII c = false.
Proof.
  induction s as [|c s IH]; simpl; [by left|].
  destruct (isSpaceASCII c) eqn:Hc; [done|]. right. by exists c, s.
Qed.

Lemma trimRightASCII_idemp (s : string) :
  trimRightASCII (trimRightASCII s) = trimRightASCII s.
Proof.
  induction s as [|c s IH]; simpl; [done|].
  destruct (trimRightASCII s) as [|d r] eqn:Hr.
  - destruct (isSpaceASCII c) eqn:Hc; simpl; [done|]. by rewrite Hc.
  - change (trimRightASCII (String c (String d r)))
      with (match trimRightASCII (String d r) with
            | EmptyString =>
                if isSpaceASCII c then EmptyString else String c EmptyString
            | r' => String c r'
            end).
    by rewrite IH.
Qed.

Lemma trimRightASCII_head (c : ascii) (r : string) :
  isSpaceASCII c = false → ∃ r', trimRightASCII (String c r) = String c r'.
Proof.
  intros Hc. simpl. destruct (trimRightASCII r); [rewrite Hc|]; eauto.
Qed.

Lemma TrimSpaceASCII_idemp (s : string) :
  TrimSpaceASCII (TrimSpaceASCII s) = TrimSpaceASCII s.
Proof.
  unfold TrimSpaceASCII.
  destruct (trimLeftASCII_head s) as [->|(c & r & -> & Hc)]; [done|].
  destruct (trimRightASCII_head c r Hc) as [r' Hr']. rewrite Hr'.
  simpl trimLeftASCII. rewrite Hc, <-Hr'. apply trimRightASCII_idemp.
Qed.

Lemma ToLowerASCII_nil (s : string) : ToLowerASCII s = "" → s = "".
Proof. by destruct s. Qed.

Section SearchTopicFacts.
Context (TrimSpace ToLower : string → string).
Context (reTraffic_FindString : string → string).
Context (xml_Decode : string → string + RSS).
Context (Document : Type).
Context (NewDocumentFromReader : string → string + Document).
Context (Find : Document → string → list Anchor).
Context (httpClient_Do : Request → DoResult).
Context (rand_Intn : Z → Z).

Hypothesis TrimSpace_idemp : ∀ s, TrimSpace (TrimSpace s) = TrimSpace s.
Hypothesis ToLower_nil : ∀ s, ToLower s = "" → s = "".
Hypothesis rand_Intn_range : ∀ n, 0 < n → 0 ≤ rand_Intn n < n.

Local Abbreviation yahoo :=
  (fetchYahooRealtime TrimSpace ToLower Document NewDocumentFromReader Find
     httpClient_Do 10).1.
Local Abbreviation google :=
  (topics_of (fetchGoogleTrends TrimSpace reTraffic_FindString xml_Decode
                httpClient_Do "JP" 10)).

Lemma fetched_title (t : Topic) :
  t ∈ yahoo ++ google →
  Title t ≠ "" ∧ mergeKey TrimSpace ToLower (Title t) ≠ "".
Proof.
  intros [Ht|Ht]%elem_of_app.
  - by apply fetchYahooRealtime_topic in Ht as (_ & _ & ? & _ & ?).
  - apply fetch_topic in Ht as (_ & Hne & _ & s & Hs). split; [done|].
    unfold mergeKey. rewrite Hs, TrimSpace_idemp, <-Hs.
    intros Hk. by apply ToLower_nil in Hk.
Qed.

(** X13: with a [strings.TrimSpace] that is idempotent, a
    [strings.ToLower] that maps only the empty string to the empty string
    and a [rand.Intn] that answers within its range, the search branch of
    [main] never panics: it stops with [log.Fatal] exactly when both
    adapters return nothing, and otherwise selects a theme that is not
    empty and is the title of a topic one of the adapters returned. *)
Theorem searchTopic_safe :
  searchTopic TrimSpace ToLower reTraffic_FindString xml_Decode Document
    NewDocumentFromReader Find httpClient_Do rand_Intn ≠ Panics ∧
  (searchTopic TrimSpace ToLower reTraffic_FindString xml_Decode Document
     NewDocumentFromReader Find httpClient_Do rand_Intn = Fatal ↔
   (fetchYahooRealtime TrimSpace ToLower Document NewDocumentFromReader Find
      httpClient_Do 10).1 = [] ∧
   topics_of (fetchGoogleTrends TrimSpace reTraffic_FindString xml_Decode
                httpClient_Do "JP" 10) = []) ∧
  (∀ theme,
     searchTopic TrimSpace ToLower reTraffic_FindString xml_Decode Document
       NewDocumentFromReader Find httpClient_Do rand_Intn = Theme theme →
     theme ≠ "" ∧
     ∃ t, t ∈ (fetchYahooRealtime TrimSpace ToLower Document
                 NewDocumentFromReader Find httpClient_Do 10).1
              ++ topics_of (fetchGoogleTrends TrimSpace reTraffic_FindString
                              xml_Decode httpClient_Do "JP" 10) ∧
          Title t = theme).
Proof.
  unfold searchTopic.
  destruct ((Z.of_nat (length yahoo) =? 0) && (Z.of_nat (length google) =? 0))
    eqn:Hboth.
  { apply andb_true_iff in Hboth as [Hy%Z.eqb_eq Hg%Z.eqb_eq].
    split; [done|]. split; [|done]. split; [intros _|done].
    split; apply length_zero_iff_nil; lia. }
  assert (yahoo ++ google ≠ []) as Hsome.
  { intros [Hy' Hg']%app_eq_nil. rewrite Hy', Hg' in Hboth. done. }
  assert (mergeAndRank TrimSpace ToLower yahoo google 10 ≠ []) as Hmerged.
  { rewrite mergeAndRank_cap, cap_nil_iff, untruncated_nil_iff.
    intros Hall. destruct (yahoo ++ google) as [|t l] eqn:Hl; [done|].
    assert (t ∈ yahoo ++ google) as Ht by (rewrite Hl; by left).
    apply fetched_title in Ht as [_ Hk]. apply Hk, Hall. by left. }
  destruct (mergeAndRank TrimSpace ToLower yahoo google 10)
    as [|o os] eqn:Hm; [done|].
  pose proof (rand_Intn_range (Z.of_nat (length (o :: os)))
                ltac:(simpl; lia)) as Hidx.
  destruct (Z.leb_spec (Z.of_nat (length (o :: os))) 0) as [Hle|_];
    [simpl in Hle; lia|].
  destruct (Z.ltb_spec (rand_Intn (Z.of_nat (length (o :: os)))) 0); [lia|].
  destruct (Z.leb_spec (Z.of_nat (length (o :: os)))
              (rand_Intn (Z.of_nat (length (o :: os))))); [lia|].
  simpl orb. cbv iota.
  destruct ((o :: os) !! Z.to_nat (rand_Intn (Z.of_nat (length (o :: os)))))
    as [o'|] eqn:Ho'; [|apply lookup_ge_None in Ho'; lia].
  split; [done|]. split.
  { split; [done|]. intros [Hy' Hg']. rewrite Hy', Hg' in Hboth. done. }
  intros theme [= <-].
  apply list_elem_of_lookup_2 in Ho'. rewrite <-Hm in Ho'.
  apply elem_of_mergeAndRankWith in Ho' as (k & v & Hv & ->).
  apply acc_title_first in Hv as (i & t & (Hi & _) & _ & Htitle).
  apply list_elem_of_lookup_2 in Hi. simpl. rewrite Htitle.
  split; [by apply fetched_title|by exists t].
Qed.
End SearchTopicFacts.

Lemma searchTopic_safe_witness :
  searchTopic TrimSpaceASCII ToLowerASCII noMatch demoDecode (list Anchor)
    demoParse demoFind (pageNet "nav page") (λ _, 0) ≠ Panics ∧
  (searchTopic TrimSpaceASCII ToLowerASCII noMatch demoDecode (list Anchor)
     demoParse demoFind (pageNet "nav page") (λ _, 0) = Fatal ↔
   (fetchYahooRealtime TrimSpaceASCII ToLowerASCII (list Anchor) demoParse
      demoFind (pageNet "nav page") 10).1 = [] ∧
   topics_of (fetchGoogleTrends TrimSpaceASCII noMatch demoDecode
                (pageNet "nav page") "JP" 10) = []) ∧
  (∀ theme,
     searchTopic TrimSpaceASCII ToLowerASCII noMatch demoDecode (list Anchor)
       demoParse demoFind (pageNet "nav page") (λ _, 0) = Theme theme →
     theme ≠ "" ∧
     ∃ t, t ∈ (fetchYahooRealtime TrimSpaceASCII ToLowerASCII (list Anchor)
                 demoParse demoFind (pageNet "nav page") 10).1
              ++ topics_of (fetchGoogleTrends TrimSpaceASCII noMatch
                              demoDecode (pageNet "nav page") "JP" 10) ∧
          Title t = theme).
Proof.
  apply (searchTopic_safe TrimSpaceASCII ToLowerASCII noMatch demoDecode
           (list Anchor) demoParse demoFind (pageNet "nav page") (λ _, 0)).
  - apply TrimSpaceASCII_idemp.
  - apply ToLowerASCII_nil.
  - intros n Hn. lia.
Defined.

(** ** [fetchGoogleTrends] and the request that cannot be built *)

Section RequestPanicFacts.
Context (TrimSpace : string → string).
Context (reTraffic_FindString : string → string).
Context (xml_Decode : string → string + RSS).
Context (httpClient_Do : Request → DoResult).
Context (NewRequest_ok : string → bool).

Local Abbreviation won := (succeeds TrimSpace reTraffic_FindString xml_Decode httpClient_Do).
Local Abbreviation lost := (fails TrimSpace reTraffic_FindString xml_Decode httpClient_Do).
Local Abbreviation tryP :=
  (tryURLsOrPanic TrimSpace reTraffic_FindString xml_Decode httpClient_Do
     NewRequest_ok).

Lemma tryURLsOrPanic_rejected (max : Z) (url : string) (rest : list string)
    (lastErr : option error) (log : list string) :
  NewRequest_ok url = false → tryP max (url :: rest) lastErr log = None.
Proof. intros Hko. simpl. unfold getOrPanic. by rewrite Hko. Qed.

Lemma tryURLsOrPanic_success (max : Z) (url : string) (rest : list string)
    (lastErr : option error) (log : list string) (topics : list Topic) :
  NewRequest_ok url = true → won max url topics →
  tryP max (url :: rest) lastErr log
  = Some (mkFetched topics None (log ++ [url])).
Proof.
  intros Hok (resp & rss & Hget & Hct & Hdec & -> & Hne). simpl.
  unfold getOrPanic. rewrite Hok, Hget, Hct, Hdec. simpl.
  by rewrite (proj2 (nonempty_length _) Hne).
Qed.

Lemma tryURLsOrPanic_failure (max : Z) (url : string) (rest : list string)
    (lastErr : option error) (log : list string) (reason : error) :
  NewRequest_ok url = true → lost max url reason →
  tryP max (url :: rest) lastErr log
  = tryP max rest (Some reason) (log ++ [url]).
Proof.
  intros Hok. simpl. unfold getOrPanic. rewrite Hok.
  intros [(err & -> & ->)|[(resp & -> & -> & ->)|[(resp & err & -> & -> & -> & ->)|
          (resp & rss & -> & -> & -> & Hts & ->)]]]; simpl; try done.
  by rewrite Hts.
Qed.
End RequestPanicFacts.

(** X8: [fetchGoogleTrends] panics, on the nil request [get] is handed,
    exactly when the primary URL cannot be built, or the primary URL fails
    and the secondary URL cannot be built.  Otherwise it returns what the
    model without the panic returns: either a non-empty list with a nil
    error or an empty list with an error, after one or two requests that
    start with the primary URL and were all built; every topic returned
    has the source "google", a non-empty title and a rank of at least 1;
    ranks increase strictly along the list, and a positive [max] bounds
    its length. *)
Theorem fetchGoogleTrends_wellformed (TrimSpace : string → string)
    (reTraffic_FindString : string → string)
    (xml_Decode : string → string + RSS)
    (httpClient_Do : Request → DoResult)
    (NewRequest_ok : string → bool) (geo : string) (max : Z) :
  (fetchGoogleTrendsOrPanic TrimSpace reTraffic_FindString xml_Decode
     httpClient_Do NewRequest_ok geo max = None ↔
   NewRequest_ok (primaryURL geo) = false ∨
   (∃ reason, fails TrimSpace reTraffic_FindString xml_Decode httpClient_Do
                max (primaryURL geo) reason) ∧
   NewRequest_ok (secondaryURL geo) = false) ∧
  (∀ r,
     fetchGoogleTrendsOrPanic TrimSpace reTraffic_FindString xml_Decode
       httpClient_Do NewRequest_ok geo max = Some r →
     r = fetchGoogleTrends TrimSpace reTraffic_FindString xml_Decode
           httpClient_Do geo max ∧
     (topics_of r ≠ [] ∧ err_of r = None ∨
      topics_of r = [] ∧ err_of r ≠ None) ∧
     (requested r = [primaryURL geo] ∨
      requested r = [primaryURL geo; secondaryURL geo]) ∧
     (∀ url, url ∈ requested r → NewRequest_ok url = true) ∧
     (∀ t, t ∈ topics_of r →
           Source t = "google" ∧ Title t ≠ "" ∧ 1 ≤ Rank t) ∧
     (∀ p q t u, (p < q)%nat →
        topics_of r !! p = Some t → topics_of r !! q = Some u →
        Rank t < Rank u) ∧
     (0 < max → Z.of_nat (length (topics_of r)) ≤ max)).
Proof.
  pose proof (fetch_returned_wellformed TrimSpace reTraffic_FindString
                xml_Decode httpClient_Do geo max)
    as (Hshape & Hreq & Htopics & Hranks & Hlen).
  unfold fetchGoogleTrendsOrPanic, urls.
  destruct (NewRequest_ok (primaryURL geo)) eqn:Hp.
  2:{ rewrite tryURLsOrPanic_rejected by done. split; [|done].
      split; [by left|done]. }
  destruct (succeeds_or_fails TrimSpace reTraffic_FindString xml_Decode
              httpClient_Do max (primaryURL geo)) as [[ts1 Hok1]|[e1 Hko1]].
  { rewrite (tryURLsOrPanic_success _ _ _ _ _ _ _ _ _ _ ts1) by done.
    pose proof (fetch_primary _ _ _ _ _ _ _ Hok1) as Hfetch.
    split.
    { split; [done|]. intros [?|[[e Hko] _]]; [done|].
      destruct (succeeds_not_fails _ _ _ _ _ _ _ _ Hok1 Hko). }
    rewrite Hfetch in Hshape, Hreq, Htopics, Hranks, Hlen. simpl in *.
    intros r [= <-]. simpl. split; [by rewrite Hfetch|].
    do 2 (split; [done|]). split; [|done].
    intros url ->%list_elem_of_singleton. done. }
  rewrite (tryURLsOrPanic_failure _ _ _ _ _ _ _ _ _ _ e1) by done.
  destruct (NewRequest_ok (secondaryURL geo)) eqn:Hs.
  2:{ rewrite tryURLsOrPanic_rejected by done. split; [|done].
      split; [|done]. intros _. right. split; [by exists e1|done]. }
  assert (∀ url, url ∈ [primaryURL geo; secondaryURL geo] →
                 NewRequest_ok url = true) as Hboth.
  { intros url [->|[->|?%elem_of_nil]%elem_of_cons]%elem_of_cons; done. }
  destruct (succeeds_or_fails TrimSpace reTraffic_FindString xml_Decode
              httpClient_Do max (secondaryURL geo)) as [[ts2 Hok2]|[e2 Hko2]].
  - rewrite (tryURLsOrPanic_success _ _ _ _ _ _ _ _ _ _ ts2) by done.
    pose proof (fetch_secondary _ _ _ _ _ _ _ _ Hko1 Hok2) as Hfetch.
    split.
    { split; [done|]. intros [?|[_ ?]]; done. }
    rewrite Hfetch in Hshape, Hreq, Htopics, Hranks, Hlen. simpl in *.
    intros r [= <-]. simpl. split; [by rewrite Hfetch|].
    do 2 (split; [done|]). split; [exact Hboth|done].
  - rewrite (tryURLsOrPanic_failure _ _ _ _ _ _ _ _ _ _ e2) by done.
    pose proof (fetch_none _ _ _ _ _ _ _ _ Hko1 Hko2) as Hfetch.
    simpl. split.
    { split; [done|]. intros [?|[_ ?]]; done. }
    rewrite Hfetch in Hshape, Hreq, Htopics, Hranks, Hlen. simpl in *.
    intros r [= <-]. simpl. split; [by rewrite Hfetch|].
    do 2 (split; [done|]). split; [exact Hboth|done].
Qed.

Lemma fetchGoogleTrends_wellformed_witness :
  mkFetched [mkTopic "google" "alpha" "" 1; mkTopic "google" "beta" "" 2;
             mkTopic "google" "gamma" "" 3]
    None [primaryURL "JP"; secondaryURL "JP"]
  = fetchGoogleTrends TrimSpaceASCII noMatch demoDecode fallbackNet "JP" 3.
Proof.
  refine (proj1 (proj2 (fetchGoogleTrends_wellformed TrimSpaceASCII noMatch
                          demoDecode fallbackNet noControlByte "JP" 3) _ _)).
  by vm_compute.
Defined.

(** With a line feed in the region code no request can be built, and the
    call panics before any request is made. *)
Example fetchGoogleTrends_panics :
  fetchGoogleTrendsOrPanic TrimSpaceASCII noMatch demoDecode fallbackNet
    noControlByte geoWithLineFeed 10 = None.
Proof. by vm_compute. Qed.
